(** * Pinterest downloader: the extraction and download pipeline

    A shallow embedding of [DownloadThread.run] (script.pyw) and of the
    pure helpers it relies on.  Python strings are modelled as Rocq strings
    (sequences of 8-bit characters); the extension tests of the script only
    involve ASCII letters, so case folding is modelled on [A-Z].

    Library calls whose behaviour is not part of the script (the HTTP
    client, the HTML parser, [json.loads], [urljoin], [urlparse], [open])
    are parameters of the pipeline; [os.path] is modelled after
    [posixpath]. *)

From stdpp Require Import base option list strings pretty gmap.
From Stdlib Require Import Ascii String ZArith Lia.

Local Open Scope string_scope.
Local Open Scope list_scope.
Local Open Scope nat_scope.
Set Warnings "-register-all,-clear-no-such-hyp".

(** ** Python string primitives *)

Module Py.

(** [c.lower()] on one character. *)
Definition lower_ascii (c : ascii) : ascii :=
  let n := nat_of_ascii c in
  if (65 <=? n)%nat && (n <=? 90)%nat then ascii_of_nat (n + 32) else c.

(** [s.lower()] *)
Fixpoint lower (s : string) : string :=
  match s with
  | EmptyString => EmptyString
  | String c s' => String (lower_ascii c) (lower s')
  end.

(** [s.startswith(p)] *)
Fixpoint startswith (p s : string) : bool :=
  match p, s with
  | EmptyString, _ => true
  | String a p', String b s' => bool_decide (a = b) && startswith p' s'
  | String _ _, EmptyString => false
  end.

(** [sub in s] *)
Fixpoint contains (sub s : string) : bool :=
  startswith sub s ||
  match s with
  | EmptyString => false
  | String _ s' => contains sub s'
  end.

(** [c in s] for a single character. *)
Fixpoint has_char (c : ascii) (s : string) : bool :=
  match s with
  | EmptyString => false
  | String a s' => bool_decide (a = c) || has_char c s'
  end.

(** [s.split(c)[0]]: the part of [s] before the first [c]. *)
Fixpoint before_first (c : ascii) (s : string) : string :=
  match s with
  | EmptyString => EmptyString
  | String a s' => if bool_decide (a = c) then EmptyString
                   else String a (before_first c s')
  end.

(** [s.endswith(c)] for a single character; false on the empty string. *)
Fixpoint endswith_char (c : ascii) (s : string) : bool :=
  match s with
  | EmptyString => false
  | String a EmptyString => bool_decide (a = c)
  | String _ s' => endswith_char c s'
  end.

(** [s.split(c)]: the pieces of [s] between occurrences of [c]. *)
Fixpoint split (c : ascii) (s : string) : list string :=
  match s with
  | EmptyString => [EmptyString]
  | String a s' =>
      if bool_decide (a = c) then EmptyString :: split c s'
      else match split c s' with
           | piece :: rest => String a piece :: rest
           | [] => [String a EmptyString]
           end
  end.

(** [s.rfind(c)], as an option: [None] stands for [-1]. *)
Fixpoint rfind (c : ascii) (s : string) : option nat :=
  match s with
  | EmptyString => None
  | String a s' =>
      match rfind c s' with
      | Some i => Some (S i)
      | None => if bool_decide (a = c) then Some 0%nat else None
      end
  end.

(** [s[:n]] and [s[n:]] *)
Fixpoint take (n : nat) (s : string) : string :=
  match n, s with
  | S n', String a s' => String a (take n' s')
  | _, _ => EmptyString
  end.

Fixpoint drop (n : nat) (s : string) : string :=
  match n, s with
  | S n', String _ s' => drop n' s'
  | _, _ => s
  end.

(** [any(x in s for x in xs)] *)
Definition any_in (xs : list string) (s : string) : bool :=
  existsb (λ x, contains x s) xs.

(** [a or b] on values that are [None] or a string: the empty string is
    falsy as well. *)
Definition or_else (a b : option string) : option string :=
  match a with
  | Some s => if bool_decide (s = "") then b else a
  | None => b
  end.

(** [str(n)] for a non-negative integer. *)
Definition str (n : nat) : string := pretty n.

End Py.

(** ** [posixpath] *)

Module Path.

Definition sep : ascii := "/"%char.
Definition extsep : ascii := "."%char.

(** [os.path.basename(p)]: [i = p.rfind('/') + 1; return p[i:]] *)
Definition basename (p : string) : string :=
  match Py.rfind sep p with
  | Some i => Py.drop (S i) p
  | None => p
  end.

(** The inner loop of [genericpath._splitext]: is there a character
    other than a dot among [p[i:dot]]? *)
Fixpoint non_dot_before (p : string) (i dot : nat) : bool :=
  match dot with
  | O => false
  | S dot' =>
      match i with
      | S i' =>
          match p with
          | String _ p' => non_dot_before p' i' dot'
          | EmptyString => false
          end
      | O =>
          match p with
          | String a p' => negb (bool_decide (a = extsep)) || non_dot_before p' 0 dot'
          | EmptyString => false
          end
      end
  end.

(** [os.path.splitext(p)] ([genericpath._splitext] with [sep = '/'],
    no [altsep], [extsep = '.']). *)
Definition splitext (p : string) : string * string :=
  let filenameIndex :=
    match Py.rfind sep p with Some i => S i | None => 0%nat end in
  match Py.rfind extsep p with
  | Some dotIndex =>
      if (filenameIndex <=? dotIndex)%nat
         && non_dot_before p filenameIndex dotIndex
      then (Py.take dotIndex p, Py.drop dotIndex p)
      else (p, "")
  | None => (p, "")
  end.

(** [os.path.join(a, b)] for two components. *)
Definition join (a b : string) : string :=
  if Py.startswith "/" b then b
  else if bool_decide (a = "") || Py.endswith_char sep a then a +:+ b
  else a +:+ "/" +:+ b.

End Path.

(** ** Data model *)

(** The media kind; the script carries it as the string ['image'] or
    ['video']. *)
Inductive kind := Image | Video.

Global Instance kind_eq_dec : EqDecision kind.
Proof. solve_decision. Defined.

Definition media_type (k : kind) : string :=
  match k with Image => "image" | Video => "video" end.

(** A media candidate, and a media item after canonicalisation: the pair
    [(media_type, url)]. *)
Definition candidate : Type := kind * string.

(** The parsed document: a BeautifulSoup tree.  A tag has a name, an
    attribute dictionary and its contents. *)
Inductive node :=
| Tag (name : string) (attrs : gmap string string) (contents : list node)
| NavigableString (s : string).

(** A decoded JSON value, as [json.loads] returns it.  Numbers only matter
    through their truth value, so they are integers here; a [dict] is the
    list of its items (distinct keys). *)
Inductive json :=
| JNull
| JBool (b : bool)
| JNum (z : Z)
| JStr (s : string)
| JArr (items : list json)
| JObj (items : list (string * json)).

Module Soup.

(** [tag.get(key)] *)
Definition get (n : node) (key : string) : option string :=
  match n with
  | Tag _ attrs _ => attrs !! key
  | NavigableString _ => None
  end.

(** [tag.descendants]: every node below [n], in document order. *)
Fixpoint descendants (n : node) : list node :=
  match n with
  | Tag _ _ cs => flat_map (λ c, c :: descendants c) cs
  | NavigableString _ => []
  end.

(** Does a node match a tag name and a set of required attribute
    values? *)
Definition matches (name : string) (required : list (string * string))
    (n : node) : bool :=
  match n with
  | Tag nm attrs _ =>
      bool_decide (nm = name)
      && forallb (λ kv, bool_decide (attrs !! kv.1 = Some kv.2)) required
  | NavigableString _ => false
  end.

(** [tag.find_all(name, attrs)] *)
Definition find_all (n : node) (name : string)
    (required : list (string * string)) : list node :=
  List.filter (matches name required) (descendants n).

(** [tag.find(name)] *)
Definition find (n : node) (name : string) : option node :=
  head (find_all n name []).

(** [tag.string]: the single string inside a tag, if any. *)
Fixpoint string_of (n : node) : option string :=
  match n with
  | NavigableString s => Some s
  | Tag _ _ [c] => string_of c
  | Tag _ _ _ => None
  end.

End Soup.

Module Json.

(** The truth value Python gives a decoded JSON value. *)
Definition truthy (v : json) : bool :=
  match v with
  | JNull => false
  | JBool b => b
  | JNum z => negb (z =? 0)%Z
  | JStr s => negb (bool_decide (s = ""))
  | JArr l => match l with [] => false | _ => true end
  | JObj l => match l with [] => false | _ => true end
  end.

(** [d.get(key)] on the items of a [dict]. *)
Fixpoint get (items : list (string * json)) (key : string) : option json :=
  match items with
  | [] => None
  | (k, v) :: rest => if bool_decide (k = key) then Some v else get rest key
  end.

End Json.

(** ** Media extraction (the four strategies of [run]) *)

Definition image_exts : list string := [".jpg"; ".jpeg"; ".png"; ".webp"; ".gif"].
Definition video_exts : list string := [".mp4"; ".webm"; ".mov"].

Section Extraction.

(** [urljoin(base, url)]; [None] when it raises. *)
Variable urljoin : string → string → option string.
(** [json.loads(text)]; [None] when it raises. *)
Variable json_loads : string → option json.
(** [self.url] *)
Variable base : string.

(** [img.get('src') or img.get('data-src')] *)
Definition img_url (img : node) : option string :=
  Py.or_else (Soup.get img "src") (Soup.get img "data-src").

(** The test guarding the append in the image loop. *)
Definition img_accepts (img : node) : bool :=
  match img_url img with
  | Some u => negb (bool_decide (u = "")) && Py.any_in image_exts (Py.lower u)
  | None => false
  end.

(** One iteration of the image loop: the candidates it appends, or
    [None] when [urljoin] raises. *)
Definition img_step (img : node) : option (list candidate) :=
  match img_url img with
  | Some u =>
      if img_accepts img then
        abs ← urljoin base u; Some [(Image, abs)]
      else Some []
  | None => Some []
  end.

(** [video.get('src') or (video.find('source') and video.find('source').get('src'))] *)
Definition video_url (video : node) : option string :=
  Py.or_else (Soup.get video "src")
             (match Soup.find video "source" with
              | Some source => Soup.get source "src"
              | None => None
              end).

Definition video_step (video : node) : option (list candidate) :=
  match video_url video with
  | Some u =>
      if negb (bool_decide (u = "")) && Py.any_in video_exts (Py.lower u) then
        abs ← urljoin base u; Some [(Video, abs)]
      else Some []
  | None => Some []
  end.

(** One iteration over Pinterest's video containers. *)
Definition div_step (div : node) : option (list candidate) :=
  match Soup.get div "data-video-src" with
  | Some u =>
      if negb (bool_decide (u = "")) then
        abs ← urljoin base u; Some [(Video, abs)]
      else Some []
  | None => Some []
  end.

(** ['video' if any(ext in url.lower() ...) else 'image'] *)
Definition classify (url : string) : kind :=
  if Py.any_in video_exts (Py.lower url) then Video else Image.

(** The body of the [try] of the structured-data loop on decoded
    data: [None] when it raises ([url.lower()] on a value that is not
    a string). *)
Definition content_url_candidates (data : json) : option (list candidate) :=
  match data with
  | JObj items =>
      match Json.get items "contentUrl" with
      | Some v =>
          if Json.truthy v then
            match v with
            | JStr url => Some [(classify url, url)]
            | _ => None
            end
          else Some []
      | None => Some []
      end
  | _ => Some []
  end.

(** One iteration of the structured-data loop, with its bare [except]:
    every exception ([script.string] is [None], the text does not parse,
    the value has no [lower]) leaves the list unchanged. *)
Definition script_step (script : node) : list candidate :=
  default [] (text ← Soup.string_of script;
              data ← json_loads text;
              content_url_candidates data).

(** A [for] loop appending to [media_elements], stopped by the first
    exception. *)
Fixpoint for_each (step : node → option (list candidate))
    (elements : list node) (media_elements : list candidate)
    : option (list candidate) :=
  match elements with
  | [] => Some media_elements
  | e :: rest =>
      match step e with
      | Some new => for_each step rest (media_elements ++ new)
      | None => None
      end
  end.

(** The structured-data loop never raises. *)
Fixpoint for_each_script (elements : list node)
    (media_elements : list candidate) : list candidate :=
  match elements with
  | [] => media_elements
  | e :: rest => for_each_script rest (media_elements ++ script_step e)
  end.

(** [media_elements] after the four loops; [None] when an exception
    escapes to the outer handler. *)
Definition extract (soup : node) : option (list candidate) :=
  m1 ← for_each img_step (Soup.find_all soup "img" []) [];
  m2 ← for_each video_step (Soup.find_all soup "video" []) m1;
  m3 ← for_each div_step
         (Soup.find_all soup "div" [("data-test-id", "video-component")]) m2;
  Some (for_each_script
          (Soup.find_all soup "script" [("type", "application/ld+json")]) m3).

End Extraction.

(** ** Deduplication *)

(** [url.split('?')[0]] *)
Definition clean_url (url : string) : string := Py.before_first "?"%char url.

(** [d[key] = value] on an insertion-ordered dictionary: an existing key
    keeps its position and takes the new value, a new key goes last. *)
Fixpoint dict_set {V} (d : list (string * V)) (key : string) (value : V)
    : list (string * V) :=
  match d with
  | [] => [(key, value)]
  | (k, v) :: d' =>
      if bool_decide (k = key) then (k, value) :: d'
      else (k, v) :: dict_set d' key value
  end.

(** The loop filling [unique_media]. *)
Definition unique_media (media_elements : list candidate)
    : list (string * candidate) :=
  fold_left (λ d c, dict_set d (clean_url c.2) (c.1, clean_url c.2))
            media_elements [].

(** [media_list = list(unique_media.values())] *)
Definition media_list (media_elements : list candidate) : list candidate :=
  map snd (unique_media media_elements).

(** ** File names *)

Definition default_ext (k : kind) : string :=
  match k with Video => ".mp4" | Image => ".jpg" end.

Definition accepted_exts (k : kind) : list string :=
  match k with Video => video_exts | Image => image_exts end.

(** [x in xs] on a list of strings. *)
Definition in_list (x : string) (xs : list string) : bool :=
  existsb (λ y, bool_decide (x = y)) xs.

(** The file name chosen for the item of kind [k] at index [i] whose URL
    has path [path] ([parsed.path]). *)
Definition derive_filename (k : kind) (i : nat) (path : string) : string :=
  let filename := Path.basename path in
  if bool_decide (filename = "") || negb (Py.has_char "."%char filename) then
    let ext := if bool_decide (k = Video) then ".mp4" else ".jpg" in
    media_type k +:+ "_" +:+ Py.str (i + 1) +:+ ext
  else
    let current_ext := Py.lower (Path.splitext filename).2 in
    if bool_decide (k = Video) && negb (in_list current_ext [".mp4"; ".webm"; ".mov"])
    then (Path.splitext filename).1 +:+ ".mp4"
    else if bool_decide (k = Image)
            && negb (in_list current_ext [".jpg"; ".jpeg"; ".png"; ".webp"; ".gif"])
    then (Path.splitext filename).1 +:+ ".jpg"
    else filename.

(** The path probed when the counter of the collision loop is [counter]. *)
Definition numbered (save_folder filename : string) (counter : nat) : string :=
  let '(name, ext) := Path.splitext filename in
  Path.join save_folder (name +:+ "_" +:+ Py.str counter +:+ ext).

(** The loop [while os.path.exists(filepath)], entered with [counter] and
    [filepath]; [exists_] is the set of existing paths (the entries of the
    save folder, finitely many).  [None] when the loop is still running
    after [fuel] iterations. *)
Fixpoint probe (exists_ : gset string) (save_folder filename : string)
    (fuel counter : nat) (filepath : string) : option string :=
  if bool_decide (filepath ∈ exists_) then
    match fuel with
    | O => None
    | S fuel' =>
        probe exists_ save_folder filename fuel' (S counter)
              (numbered save_folder filename counter)
    end
  else Some filepath.

(** The path the file is written to.  The set of existing paths is
    finite, which bounds the number of iterations. *)
Definition unique_path (exists_ : gset string) (save_folder filename : string)
    : option string :=
  probe exists_ save_folder filename (S (size exists_)) 1
        (Path.join save_folder filename).

(** ** The pipeline *)

(** Why one item could not be downloaded. *)
Inductive failure :=
| UrlError                (* [urlparse] raised *)
| RequestError            (* [requests.get] raised *)
| HttpError (status : Z)  (* [raise_for_status] raised *)
| OpenError               (* [open] raised *)
| StreamError.            (* reading or writing a chunk raised *)

(** The lines sent through [log_signal]. *)
Inductive message :=
| Accessing (url : string)
| PageFailed
| NoMediaFound
| Found (total images videos : nat)
| Downloaded (k : kind) (filename : string) (n total : nat)
| DownloadFailed (url : string) (why : failure)
| AllCompleted
| CriticalError.

(** What the run does to the outside world, in order. *)
Inductive event :=
| Emit (m : message)                   (* [log_signal.emit] *)
| Get (url : string) (stream : bool)   (* [requests.get] *)
| Open (path : string).                (* [open(path, 'wb')] *)

(** What [requests.get] gives: an exception, or a response with its
    status, its text and whether its body can be read to the end. *)
Inductive response :=
| Raised
| Response (status_code : Z) (text : string) (complete : bool).

(** [raise_for_status] raises on 4xx and 5xx. *)
Definition is_http_error (status : Z) : bool :=
  (400 <=? status)%Z && (status <? 600)%Z.

Global Instance failure_eq_dec : EqDecision failure.
Proof. solve_decision. Defined.
Global Instance message_eq_dec : EqDecision message.
Proof. solve_decision. Defined.
Global Instance event_eq_dec : EqDecision event.
Proof. solve_decision. Defined.

Section Pipeline.

(** The [n]-th call of [requests.get]: call 0 fetches the pin page,
    call [i + 1] fetches the item at index [i]. *)
Variable requests_get : nat → string → response.
(** [BeautifulSoup(text, 'html.parser')]; [None] when the parser raises. *)
Variable html_parser : string → option node.
Variable json_loads : string → option json.
Variable urljoin : string → string → option string.
(** [urlparse(url).path]; [None] when [urlparse] raises. *)
Variable urlparse_path : string → option string.
(** Does [open(path, 'wb')] succeed for the item at index [i]? *)
Variable open_wb : nat → string → bool.
(** [self.url] and [self.save_folder] *)
Variable url save_folder : string.

(** One iteration of the download loop, with its [except Exception]:
    the events of the iteration and the existing paths after it. *)
Definition download_one (exists_ : gset string) (i total : nat)
    (item : candidate) : option (list event * gset string) :=
  let '(k, media_url) := item in
  match urlparse_path media_url with
  | None => Some ([Emit (DownloadFailed media_url UrlError)], exists_)
  | Some path =>
      let filename := derive_filename k i path in
      filepath ← unique_path exists_ save_folder filename;
      Some
        match requests_get (S i) media_url with
        | Raised =>
            ([Get media_url true;
              Emit (DownloadFailed media_url RequestError)], exists_)
        | Response status _ complete =>
            if is_http_error status then
              ([Get media_url true;
                Emit (DownloadFailed media_url (HttpError status))], exists_)
            else if open_wb i filepath then
              if complete then
                ([Get media_url true; Open filepath;
                  Emit (Downloaded k filename (i + 1) total)],
                 {[filepath]} ∪ exists_)
              else
                ([Get media_url true; Open filepath;
                  Emit (DownloadFailed media_url StreamError)],
                 {[filepath]} ∪ exists_)
            else
              ([Get media_url true; Open filepath;
                Emit (DownloadFailed media_url OpenError)], exists_)
        end
  end.

(** [for i, (media_type, media_url) in enumerate(media_list)], from
    index [i] on. *)
Fixpoint download_loop (exists_ : gset string) (i total : nat)
    (items : list candidate) : option (list event) :=
  match items with
  | [] => Some []
  | item :: rest =>
      '(evs, exists') ← download_one exists_ i total item;
      more ← download_loop exists' (S i) total rest;
      Some (evs ++ more)
  end.

Definition count_kind (k : kind) (items : list candidate) : nat :=
  List.length (List.filter (λ it, bool_decide (it.1 = k)) items).

(** [DownloadThread.run], started with [exists_] as the existing
    paths. *)
Definition run (exists_ : gset string) : option (list event) :=
  let start := [Emit (Accessing url); Get url false] in
  match requests_get 0 url with
  | Raised => Some (start ++ [Emit CriticalError])
  | Response status text _ =>
      if negb (status =? 200)%Z then Some (start ++ [Emit PageFailed])
      else
        match html_parser text with
        | None => Some (start ++ [Emit CriticalError])
        | Some soup =>
            match extract urljoin json_loads url soup with
            | None => Some (start ++ [Emit CriticalError])
            | Some media_elements =>
                let items := media_list media_elements in
                let total_media := List.length items in
                match items with
                | [] => Some (start ++ [Emit NoMediaFound])
                | _ =>
                    evs ← download_loop exists_ 0 total_media items;
                    Some (start
                            ++ [Emit (Found total_media (count_kind Image items)
                                            (count_kind Video items))]
                            ++ evs ++ [Emit AllCompleted])
                end
            end
        end
  end.

End Pipeline.

(** ** Notions used in the statements *)

(** The candidates of [l] whose canonical URL is [key], in extraction
    order. *)
Definition same_canonical (key : string) (l : list candidate) : list candidate :=
  filter (λ c, clean_url c.2 = key) l.

(** [key] is [u] cut at its first question mark: [key] has no question
    mark and [u] is [key], alone or followed by a question mark and a
    query string. *)
Definition truncated_at_query (u key : string) : Prop :=
  Py.has_char "?"%char key = false
  ∧ (u = key ∨ ∃ query, u = key +:+ "?" +:+ query).

(** The path tested at the [j]-th turn of the collision loop: the derived
    name first, then the numbered ones. *)
Definition path_at (save_folder filename : string) (j : nat) : string :=
  match j with
  | O => Path.join save_folder filename
  | S _ => numbered save_folder filename j
  end.

(** The final segment of a URL path: what follows its last slash. *)
Definition final_segment (path : string) : string :=
  default "" (last (Py.split Path.sep path)).

(** The decoded value is an object whose [contentUrl] is the non-empty
    string [url]. *)
Definition has_content_url (data : json) (url : string) : Prop :=
  ∃ items, data = JObj items
           ∧ Json.get items "contentUrl" = Some (JStr url) ∧ url ≠ "".

(** The reading in which any non-empty [contentUrl] value, string or not,
    yields a candidate. *)
Definition any_content_url_emits : Prop :=
  ∀ (json_loads : string → option json) (script : node) (text : string)
    (items : list (string * json)) (v : json),
    Soup.string_of script = Some text →
    json_loads text = Some (JObj items) →
    Json.get items "contentUrl" = Some v →
    Json.truthy v = true →
    ∃ c, script_step json_loads script = [c].

Definition is_alpha (c : ascii) : bool :=
  let n := nat_of_ascii (Py.lower_ascii c) in (97 <=? n) && (n <=? 122).

Definition is_scheme_char (c : ascii) : bool :=
  let n := nat_of_ascii c in
  is_alpha c || ((48 <=? n) && (n <=? 57))
  || bool_decide (c = "+"%char) || bool_decide (c = "-"%char)
  || bool_decide (c = "."%char).

Fixpoint scheme_then_colon (s : string) : bool :=
  match s with
  | EmptyString => false
  | String c s' =>
      bool_decide (c = ":"%char) || (is_scheme_char c && scheme_then_colon s')
  end.

(** A URL is absolute when it starts with a scheme and a colon. *)
Definition is_absolute (u : string) : bool :=
  match u with
  | EmptyString => false
  | String c s' => is_alpha c && scheme_then_colon s'
  end.

(** The lines of a trace. *)
Definition emitted (log : list event) : list message :=
  omap (λ e, match e with Emit m => Some m | _ => None end) log.

(** The line that closes the iteration for [item] at index [i]. *)
Definition outcome_for (item : candidate) (i total : nat) (m : message) : Prop :=
  (∃ filename, m = Downloaded item.1 filename (i + 1) total)
  ∨ (∃ why, m = DownloadFailed item.2 why).

(** The item at index [i] can be fetched and written. *)
Definition downloadable (requests_get : nat → string → response)
    (urlparse_path : string → option string) (open_wb : nat → string → bool)
    (i : nat) (item : candidate) : Prop :=
  is_Some (urlparse_path item.2)
  ∧ (∃ status text, requests_get (S i) item.2 = Response status text true
                    ∧ is_http_error status = false)
  ∧ ∀ path, open_wb i path = true.

(** The item at index [i] cannot be downloaded: its URL does not parse,
    the request raises, the status is an error, the body cannot be read
    to the end, or no file can be opened. *)
Definition item_fails (requests_get : nat → string → response)
    (urlparse_path : string → option string) (open_wb : nat → string → bool)
    (i : nat) (item : candidate) : Prop :=
  urlparse_path item.2 = None
  ∨ requests_get (S i) item.2 = Raised
  ∨ ∃ status text complete,
      requests_get (S i) item.2 = Response status text complete
      ∧ (is_http_error status = true ∨ complete = false
         ∨ ∀ path, open_wb i path = false).

(** ** Sample inputs *)

(** A [json.loads] given by a finite table of documents. *)
Definition loads_table (table : list (string * json)) (text : string)
    : option json :=
  Json.get table text.

Definition dquote : string := String "034"%char "".

Definition ld_json_script (text : string) : node :=
  Tag "script" {["type" := "application/ld+json"]} [NavigableString text].

(** [{"contentUrl": ["https://v1.pinimg.com/videos/clip.mp4"]}] *)
Definition array_document : string :=
  "{" +:+ dquote +:+ "contentUrl" +:+ dquote +:+ ": ["
      +:+ dquote +:+ "https://v1.pinimg.com/videos/clip.mp4" +:+ dquote +:+ "]}".

Definition array_data : json :=
  JObj [("contentUrl", JArr [JStr "https://v1.pinimg.com/videos/clip.mp4"])].

(** [{"contentUrl": "https://v1.pinimg.com/videos/clip.MP4"}] *)
Definition video_document : string :=
  "{" +:+ dquote +:+ "contentUrl" +:+ dquote +:+ ": "
      +:+ dquote +:+ "https://v1.pinimg.com/videos/clip.MP4" +:+ dquote +:+ "}".

Definition video_data : json :=
  JObj [("contentUrl", JStr "https://v1.pinimg.com/videos/clip.MP4")].

(** [{"contentUrl": "/static/clip.mp4"}] *)
Definition relative_document : string :=
  "{" +:+ dquote +:+ "contentUrl" +:+ dquote +:+ ": "
      +:+ dquote +:+ "/static/clip.mp4" +:+ dquote +:+ "}".

Definition relative_data : json := JObj [("contentUrl", JStr "/static/clip.mp4")].

(** A page with one image and one structured-data block, both with a
    URL relative to the site root. *)
Definition relative_page : node :=
  Tag "[document]" ∅
    [Tag "html" ∅
       [Tag "body" ∅
          [Tag "img" {["src" := "/static/img1.png"]} [];
           ld_json_script relative_document]]].

(** [urlparse(u).path] on URLs of the form [scheme://authority/path]. *)
Fixpoint from_first_slash (s : string) : string :=
  match s with
  | EmptyString => EmptyString
  | String c s' => if bool_decide (c = "/"%char) then s else from_first_slash s'
  end.

Fixpoint after_double_slash (s : string) : option string :=
  match s with
  | EmptyString => None
  | String _ s' =>
      if Py.startswith "//" s then Some (Py.drop 2 s) else after_double_slash s'
  end.

Definition simple_urlparse_path (u : string) : option string :=
  from_first_slash <$> after_double_slash u.

(** [urljoin] on absolute references: the reference itself. *)
Definition urljoin_absolute (base ref : string) : option string := Some ref.

Definition pin_url : string := "https://www.pinterest.com/pin/123/".

(** [str.strip] on the texts used below: the pin URL typed with blanks
    around it, and texts without surrounding white space. *)
Definition strip_sample (text : string) : string :=
  if bool_decide (text = "  https://www.pinterest.com/pin/123/ ") then pin_url
  else text.

(** Two images, one of them with a query string, and a video. *)
Definition pin_page : node :=
  Tag "[document]" ∅
    [Tag "div" ∅
       [Tag "img" {["src" := "https://i.pinimg.com/originals/a.png"]} [];
        Tag "img" {["src" := "https://i.pinimg.com/originals/b.jpg?x=1"]} [];
        Tag "video" {["src" := "https://v1.pinimg.com/videos/c.mp4"]} []]].

(** The site answers 404 for the first image and 200 for the rest. *)
Definition pin_site (n : nat) (u : string) : response :=
  if bool_decide (u = "https://i.pinimg.com/originals/a.png")
  then Response 404 "" true
  else Response 200 "" true.

Definition pin_run (exists_ : gset string) : option (list event) :=
  run pin_site (λ _, Some pin_page) (loads_table []) urljoin_absolute
      simple_urlparse_path (λ _ _, true) pin_url "Pinterest_downloads" exists_.

Definition pin_log : list event :=
  [Emit (Accessing pin_url); Get pin_url false; Emit (Found 3 2 1);
   Get "https://i.pinimg.com/originals/a.png" true;
   Emit (DownloadFailed "https://i.pinimg.com/originals/a.png" (HttpError 404));
   Get "https://i.pinimg.com/originals/b.jpg" true;
   Open "Pinterest_downloads/b_1.jpg";
   Emit (Downloaded Image "b.jpg" 2 3);
   Get "https://v1.pinimg.com/videos/c.mp4" true;
   Open "Pinterest_downloads/c.mp4";
   Emit (Downloaded Video "c.mp4" 3 3);
   Emit AllCompleted].

(** ** The window ([PinterestDownloaderGUI]) *)

(** [s.endswith(suffix)] *)
Fixpoint endswith (suffix s : string) : bool :=
  bool_decide (s = suffix)
  || match s with
     | EmptyString => false
     | String _ s' => endswith suffix s'
     end.

(** The part of the window the slots read and write: the state of the
    download button, the lines of the log view, the message boxes shown
    so far (title and text) and the download folder. *)
Record window := Window {
  download_btn_enabled : bool;
  log_output : list message;
  dialogs : list (string * string);
  download_folder : string
}.

(** [show_message(title, message)] *)
Definition show_message (title text : string) (w : window) : window :=
  {| download_btn_enabled := download_btn_enabled w;
     log_output := log_output w;
     dialogs := dialogs w ++ [(title, text)];
     download_folder := download_folder w |}.

(** [update_log(message)] *)
Definition update_log (w : window) (m : message) : window :=
  {| download_btn_enabled := download_btn_enabled w;
     log_output := log_output w ++ [m];
     dialogs := dialogs w;
     download_folder := download_folder w |}.

(** [download_btn.setEnabled(b)] *)
Definition set_enabled (b : bool) (w : window) : window :=
  {| download_btn_enabled := b;
     log_output := log_output w;
     dialogs := dialogs w;
     download_folder := download_folder w |}.

(** [on_download_finished()] *)
Definition on_download_finished (w : window) : window :=
  show_message "Success" "All media downloaded successfully!" (set_enabled true w).

Section Gui.

(** [text.strip()]: the text without its leading and trailing white
    space, as [str.strip] defines it (Unicode white space included). *)
Variable strip : string → string.
(** [urlparse(url)] as the pair of its [netloc] and [path]; [None] when
    it raises. *)
Variable urlparse : string → option (string * string).

(** [is_valid_pinterest_url(url)]; [None] when [urlparse] raises. *)
Definition is_valid_pinterest_url (url : string) : option bool :=
  '(netloc, path) ← urlparse url;
  Some (endswith "pinterest.com" netloc
        && (Py.contains "/pin/" url || Py.contains "/pin/" path)).

(** [start_download()] with [text] in the URL field: the window after the
    slot and the thread it started, as the pair of the URL and the save
    folder given to [DownloadThread]; [None] when the slot raises. *)
Definition start_download (text : string) (w : window)
    : option (window * option (string * string)) :=
  let url := strip text in
  if bool_decide (url = "") then
    Some (show_message "Error" "Please enter a Pinterest URL." w, None)
  else
    valid ← is_valid_pinterest_url url;
    if negb valid then
      Some (show_message "Error"
              "Please enter a valid Pinterest URL (e.g., https://www.pinterest.com/pin/...)"
              w, None)
    else Some (set_enabled false w, Some (url, download_folder w)).

Variable requests_get : nat → string → response.
Variable html_parser : string → option node.
Variable json_loads : string → option json.
Variable urljoin : string → string → option string.
Variable urlparse_path : string → option string.
Variable open_wb : nat → string → bool.

(** A click on the download button, followed to the end of the thread it
    starts: [log_signal] is connected to [update_log] and [finished] to
    [on_download_finished]. *)
Definition download_session (text : string) (exists_ : gset string) (w : window)
    : option window :=
  '(w1, started) ← start_download text w;
  match started with
  | None => Some w1
  | Some (url, save_folder) =>
      log ← run requests_get html_parser json_loads urljoin urlparse_path
                open_wb url save_folder exists_;
      Some (on_download_finished (fold_left update_log (emitted log) w1))
  end.

End Gui.

(** ** Further notions used in the statements *)

(** The keys of a list in the order of their first occurrence. *)
Definition first_occurrences (l : list string) : list string :=
  reverse (remove_dups (reverse l)).

(** The paths of a trace at which a file was created: every [open] that
    did not fail. *)
Fixpoint created (log : list event) : list string :=
  match log with
  | [] => []
  | Open path :: rest =>
      match rest with
      | Emit (DownloadFailed _ OpenError) :: _ => created rest
      | _ => path :: created rest
      end
  | _ :: rest => created rest
  end.

(** The URLs requested with [stream=True], in order. *)
Definition media_requests (log : list event) : list string :=
  omap (λ e, match e with Get u true => Some u | _ => None end) log.

(** The lines that can close a run. *)
Definition closing (m : message) : Prop :=
  m = PageFailed ∨ m = NoMediaFound ∨ m = AllCompleted ∨ m = CriticalError.

(** ** The cases of an iteration and of a run *)

Section Cases.
Variable requests_get : nat → string → response.
Variable html_parser : string → option node.
Variable json_loads : string → option json.
Variable urljoin : string → string → option string.
Variable urlparse_path : string → option string.
Variable open_wb : nat → string → bool.
Variable url save_folder : string.

(** The ways an iteration can go, with the trace and the files of each. *)
Inductive iteration_case (exists_ : gset string) (i total : nat) (k : kind)
    (u : string) : list event → gset string → Prop :=
| case_url_error :
    urlparse_path u = None →
    iteration_case exists_ i total k u [Emit (DownloadFailed u UrlError)] exists_
| case_request_error path :
    urlparse_path u = Some path →
    requests_get (S i) u = Raised →
    iteration_case exists_ i total k u
      [Get u true; Emit (DownloadFailed u RequestError)] exists_
| case_http_error path status text complete :
    urlparse_path u = Some path →
    requests_get (S i) u = Response status text complete →
    is_http_error status = true →
    iteration_case exists_ i total k u
      [Get u true; Emit (DownloadFailed u (HttpError status))] exists_
| case_open_error path filepath status text complete :
    urlparse_path u = Some path →
    unique_path exists_ save_folder (derive_filename k i path) = Some filepath →
    requests_get (S i) u = Response status text complete →
    is_http_error status = false →
    open_wb i filepath = false →
    iteration_case exists_ i total k u
      [Get u true; Open filepath; Emit (DownloadFailed u OpenError)] exists_
| case_stream_error path filepath status text :
    urlparse_path u = Some path →
    unique_path exists_ save_folder (derive_filename k i path) = Some filepath →
    requests_get (S i) u = Response status text false →
    is_http_error status = false →
    open_wb i filepath = true →
    iteration_case exists_ i total k u
      [Get u true; Open filepath; Emit (DownloadFailed u StreamError)]
      ({[filepath]} ∪ exists_)
| case_downloaded path filepath status text :
    urlparse_path u = Some path →
    unique_path exists_ save_folder (derive_filename k i path) = Some filepath →
    requests_get (S i) u = Response status text true →
    is_http_error status = false →
    open_wb i filepath = true →
    iteration_case exists_ i total k u
      [Get u true; Open filepath;
       Emit (Downloaded k (derive_filename k i path) (i + 1) total)]
      ({[filepath]} ∪ exists_).

(** The ways a run can go. *)
Inductive run_case (exists_ : gset string) : list event → Prop :=
| run_request_raised :
    requests_get 0 url = Raised →
    run_case exists_ ([Emit (Accessing url); Get url false] ++ [Emit CriticalError])
| run_bad_status status text complete :
    requests_get 0 url = Response status text complete →
    status ≠ 200%Z →
    run_case exists_ ([Emit (Accessing url); Get url false] ++ [Emit PageFailed])
| run_parser_raised text complete :
    requests_get 0 url = Response 200 text complete →
    html_parser text = None →
    run_case exists_ ([Emit (Accessing url); Get url false] ++ [Emit CriticalError])
| run_extract_raised text complete soup :
    requests_get 0 url = Response 200 text complete →
    html_parser text = Some soup →
    extract urljoin json_loads url soup = None →
    run_case exists_ ([Emit (Accessing url); Get url false] ++ [Emit CriticalError])
| run_no_media text complete soup :
    requests_get 0 url = Response 200 text complete →
    html_parser text = Some soup →
    extract urljoin json_loads url soup = Some [] →
    run_case exists_ ([Emit (Accessing url); Get url false] ++ [Emit NoMediaFound])
| run_downloads text complete soup media_elements loop_log :
    requests_get 0 url = Response 200 text complete →
    html_parser text = Some soup →
    extract urljoin json_loads url soup = Some media_elements →
    media_elements ≠ [] →
    download_loop requests_get urlparse_path open_wb save_folder exists_ 0
                  (List.length (media_list media_elements))
         (media_list media_elements) = Some loop_log →
    run_case exists_
      ([Emit (Accessing url); Get url false]
         ++ [Emit (Found (List.length (media_list media_elements))
                         (count_kind Image (media_list media_elements))
                         (count_kind Video (media_list media_elements)))]
         ++ loop_log ++ [Emit AllCompleted]).

End Cases.

(** * Properties *)

(** ** Examples *)

Example basename_ex : Path.basename "/originals/ab/cd/photo.jpg" = "photo.jpg".
Proof. reflexivity. Qed.
Example splitext_ex1 : Path.splitext "photo.tar.GZ" = ("photo.tar", ".GZ").
Proof. reflexivity. Qed.
Example splitext_ex2 : Path.splitext "..jpg" = ("..jpg", "").
Proof. reflexivity. Qed.
Example splitext_ex3 : Path.splitext "a/.b.c" = ("a/.b", ".c").
Proof. reflexivity. Qed.
Example join_ex : Path.join "Pinterest_downloads" "a.png" = "Pinterest_downloads/a.png".
Proof. reflexivity. Qed.
Example str_ex : Py.str 12 = "12".
Proof. reflexivity. Qed.

Example media_list_ex :
  media_list [(Image, "https://i.pinimg.com/a.jpg?x=1");
              (Image, "https://i.pinimg.com/b.png");
              (Video, "https://i.pinimg.com/a.jpg?y=2")]
  = [(Video, "https://i.pinimg.com/a.jpg"); (Image, "https://i.pinimg.com/b.png")].
Proof. reflexivity. Qed.

Example derive_ex1 : derive_filename Image 0 "/originals/ab/photo.PNG" = "photo.PNG".
Proof. reflexivity. Qed.
Example derive_ex2 : derive_filename Video 2 "/videos/clip.m3u8" = "clip.mp4".
Proof. reflexivity. Qed.
Example derive_ex3 : derive_filename Image 4 "/pin/123/" = "image_5.jpg".
Proof. reflexivity. Qed.
Example unique_path_ex :
  unique_path {["d/photo.jpg"; "d/photo_1.jpg"]} "d" "photo.jpg" = Some "d/photo_2.jpg".
Proof. vm_compute. reflexivity. Qed.

(** ** The insertion-ordered dictionary *)

Lemma filter_none {A} (P : A → Prop) `{!∀ x, Decision (P x)} (l : list A) :
  (∀ x, x ∈ l → ¬ P x) → filter P l = [].
Proof.
  induction l as [|x l IH]; intros Hl; [done|].
  rewrite filter_cons_False by (apply Hl; set_solver).
  apply IH. intros; apply Hl; set_solver.
Qed.

Section Dict.
Context {V : Type}.
Implicit Types (d : list (string * V)) (k : string) (v : V).

Lemma dict_set_keys d k v :
  (dict_set d k v).*1 = if bool_decide (k ∈ d.*1) then d.*1 else d.*1 ++ [k].
Proof.
  induction d as [|[k0 v0] d IH]; csimpl; [done|].
  destruct (decide (k0 = k)) as [->|Hk0].
  - rewrite !bool_decide_eq_true_2; [done | set_solver | done].
  - rewrite (bool_decide_eq_false_2 (k0 = k)) by done. csimpl. rewrite IH.
    destruct (decide (k ∈ d.*1)) as [Hin|Hin].
    + rewrite !bool_decide_eq_true_2; [done | set_solver | done].
    + rewrite !bool_decide_eq_false_2; [done | set_solver | done].
Qed.

Lemma dict_set_NoDup d k v : NoDup d.*1 → NoDup (dict_set d k v).*1.
Proof.
  intros Hd. rewrite dict_set_keys. case_bool_decide; [done|].
  apply NoDup_app. split_and!; [done | | apply NoDup_singleton].
  intros x Hx Hx'. apply list_elem_of_singleton in Hx'. by subst.
Qed.

Lemma dict_set_filter_eq d k v :
  NoDup d.*1 → filter (λ e, e.1 = k) (dict_set d k v) = [(k, v)].
Proof.
  induction d as [|[k0 v0] d IH]; csimpl; intros Hd.
  - by rewrite filter_cons_True by done.
  - apply NoDup_cons in Hd as [Hk0 Hd]. case_bool_decide as Heq.
    + subst. rewrite filter_cons_True by done. f_equal.
      apply filter_none. intros [k' v'] Hin ?; simpl in *.
      subst. apply Hk0. apply list_elem_of_fmap. by exists (k, v').
    + rewrite filter_cons_False by done. by apply IH.
Qed.

Lemma dict_set_filter_ne d k k' v :
  k ≠ k' →
  filter (λ e, e.1 = k') (dict_set d k v) = filter (λ e, e.1 = k') d.
Proof.
  intros Hne. induction d as [|[k0 v0] d IH]; csimpl.
  - by rewrite filter_cons_False by done.
  - case_bool_decide as Heq.
    + subst. by rewrite !filter_cons_False by done.
    + destruct (decide (k0 = k')) as [->|Hk].
      * rewrite !filter_cons_True by done. by rewrite IH.
      * rewrite !filter_cons_False by done. done.
Qed.

Lemma elem_of_dict_set d k v e : e ∈ dict_set d k v → e = (k, v) ∨ e ∈ d.
Proof.
  induction d as [|[k0 v0] d IH]; csimpl.
  - intros ->%list_elem_of_singleton. by left.
  - case_bool_decide as Heq.
    + subst. intros [->|Hin]%elem_of_cons; [by left | right; set_solver].
    + intros [->|Hin]%elem_of_cons; [right; set_solver|].
      destruct (IH Hin) as [->|?]; [by left | right; set_solver].
Qed.

End Dict.

(** ** Deduplication *)

Lemma unique_media_snoc l c :
  unique_media (l ++ [c])
  = dict_set (unique_media l) (clean_url c.2) (c.1, clean_url c.2).
Proof. unfold unique_media. by rewrite fold_left_app. Qed.

Lemma unique_media_NoDup l : NoDup (unique_media l).*1.
Proof.
  induction l as [|c l IH] using rev_ind; [constructor|].
  rewrite unique_media_snoc. by apply dict_set_NoDup.
Qed.

(** Every entry is [clean_url -> (kind, clean_url)] for some candidate. *)
Lemma unique_media_entries l e :
  e ∈ unique_media l →
  e.2.2 = e.1 ∧ ∃ c, c ∈ l ∧ e.1 = clean_url c.2.
Proof.
  revert e. induction l as [|c l IH] using rev_ind; intros e.
  - by intros ?%elem_of_nil.
  - rewrite unique_media_snoc. intros [->|Hin]%elem_of_dict_set.
    + split; [done|]. exists c. split; [set_solver | done].
    + destruct (IH e Hin) as [? (c' & ? & ?)].
      split; [done|]. exists c'. split; [set_solver | done].
Qed.

Lemma unique_media_filter l key :
  filter (λ e, e.1 = key) (unique_media l)
  = match last (same_canonical key l) with
    | Some c => [(key, (c.1, key))]
    | None => []
    end.
Proof.
  unfold same_canonical.
  induction l as [|c l IH] using rev_ind; [done|].
  rewrite unique_media_snoc, filter_app.
  destruct (decide (clean_url c.2 = key)) as [Heq|Hne].
  - rewrite filter_cons_True, filter_nil by done. rewrite last_snoc.
    rewrite Heq. apply dict_set_filter_eq, unique_media_NoDup.
  - rewrite filter_cons_False, filter_nil, app_nil_r by done.
    by rewrite dict_set_filter_ne.
Qed.

Lemma media_list_filter l key :
  filter (λ it, it.2 = key) (media_list l)
  = (filter (λ e, e.1 = key) (unique_media l)).*2.
Proof.
  unfold media_list.
  assert (Hinv : ∀ e, e ∈ unique_media l → e.2.2 = e.1)
    by (intros e He; by apply unique_media_entries in He as [? _]).
  induction (unique_media l) as [|e d IH]; [done|].
  simpl. assert (He : e.2.2 = e.1) by (apply Hinv; set_solver).
  destruct (decide (e.1 = key)) as [Hk|Hk].
  - rewrite !filter_cons_True by congruence. simpl. f_equal.
    apply IH. intros; apply Hinv; set_solver.
  - rewrite !filter_cons_False by congruence.
    apply IH. intros; apply Hinv; set_solver.
Qed.

Lemma media_list_from_candidate (media_elements : list candidate) (it : candidate) :
  it ∈ media_list media_elements →
  ∃ c, c ∈ media_elements ∧ it.2 = clean_url c.2.
Proof.
  unfold media_list. intros (e & -> & He)%list_elem_of_fmap.
  apply unique_media_entries in He as [He (c & Hc & Hk)].
  exists c. split; [done | exact (eq_trans He Hk)].
Qed.

Lemma media_list_survivor (media_elements : list candidate) (c : candidate) :
  c ∈ media_elements →
  ∃ winner,
    last (same_canonical (clean_url c.2) media_elements) = Some winner
    ∧ filter (λ it, it.2 = clean_url c.2) (media_list media_elements)
      = [(winner.1, clean_url c.2)].
Proof.
  intros Hc. rewrite media_list_filter, unique_media_filter.
  destruct (last (same_canonical (clean_url c.2) media_elements))
    as [w|] eqn:Hlast.
  - by exists w.
  - apply last_None in Hlast.
    assert (c ∈ same_canonical (clean_url c.2) media_elements) as Hin
      by (by apply list_elem_of_filter).
    rewrite Hlast in Hin. by apply elem_of_nil in Hin.
Qed.

Lemma media_list_nil (media_elements : list candidate) :
  media_list media_elements = [] ↔ media_elements = [].
Proof.
  split; [|by intros ->].
  destruct media_elements as [|c l]; [done|]. intros Hnil. exfalso.
  destruct (media_list_survivor (c :: l) c) as (w & _ & Hf); [set_solver|].
  rewrite Hnil in Hf. done.
Qed.

(** ** Strings and paths *)

Lemma string_app_nil_l (s : string) : "" +:+ s = s.
Proof. reflexivity. Qed.

Lemma string_app_cons (a : ascii) (s t : string) :
  String a s +:+ t = String a (s +:+ t).
Proof. reflexivity. Qed.

Lemma string_app_assoc (s t u : string) : (s +:+ t) +:+ u = s +:+ (t +:+ u).
Proof.
  induction s as [|a s IH]; [done|].
  by rewrite !string_app_cons, IH.
Qed.

Lemma string_app_length (s t : string) :
  String.length (s +:+ t) = String.length s + String.length t.
Proof.
  induction s as [|a s IH]; [done|].
  rewrite string_app_cons. simpl. by rewrite IH.
Qed.

(** Cancellation of a common suffix. *)
Lemma string_app_inv_tail (s1 s2 t : string) : s1 +:+ t = s2 +:+ t → s1 = s2.
Proof.
  revert s2. induction s1 as [|a s1 IH]; intros [|b s2] Heq; [done| | |].
  - apply (f_equal String.length) in Heq.
    rewrite string_app_nil_l, string_app_cons in Heq. simpl in Heq.
    rewrite string_app_length in Heq. lia.
  - apply (f_equal String.length) in Heq.
    rewrite string_app_nil_l, string_app_cons in Heq. simpl in Heq.
    rewrite string_app_length in Heq. lia.
  - rewrite !string_app_cons in Heq. injection Heq as -> Heq.
    f_equal. by apply IH.
Qed.

Lemma startswith_app_cons (p : string) (a : ascii) (s t : string) :
  Py.startswith p (String a s +:+ t)
  = match p with
    | EmptyString => true
    | String b p' => bool_decide (b = a) && Py.startswith p' (s +:+ t)
    end.
Proof. rewrite string_app_cons. by destruct p. Qed.

(** [os.path.join] only looks at the first character of its second
    argument, so it is injective on names with a common non-empty head. *)
Lemma join_inj_tail (a head x y : string) :
  head ≠ "" → Path.join a (head +:+ x) = Path.join a (head +:+ y) → x = y.
Proof.
  intros Hhead. destruct head as [|c head]; [done|].
  unfold Path.join. rewrite !startswith_app_cons. simpl.
  rewrite !andb_true_r.
  destruct (bool_decide ("/"%char = c)).
  - intros Heq. by apply (inj (String.app (String c head))) in Heq.
  - destruct (bool_decide (a = "") || Py.endswith_char Path.sep a); intros Heq.
    + apply (inj (String.app a)) in Heq.
      by apply (inj (String.app (String c head))) in Heq.
    + apply (inj (String.app a)), (inj (String.app "/")) in Heq.
      by apply (inj (String.app (String c head))) in Heq.
Qed.

Global Instance numbered_inj (save_folder filename : string) :
  Inj (=) (=) (numbered save_folder filename).
Proof.
  intros i j. unfold numbered.
  destruct (Path.splitext filename) as [name ext].
  rewrite <- !(string_app_assoc name "_").
  intros Heq. apply join_inj_tail in Heq.
  - apply string_app_inv_tail in Heq. by apply (inj pretty) in Heq.
  - intros Hnil. apply (f_equal String.length) in Hnil.
    rewrite string_app_length in Hnil. simpl in Hnil. lia.
Qed.

(** ** Canonical URLs and the surviving item *)

Lemma clean_url_truncated (u : string) : truncated_at_query u (clean_url u).
Proof.
  unfold truncated_at_query, clean_url.
  induction u as [|a u [IHq IH]]; simpl; [by split; [|left]|].
  case_bool_decide as Ha.
  - subst. split; [done|]. right. by exists u.
  - simpl. rewrite bool_decide_eq_false_2 by done. split; [done|].
    destruct IH as [IH|[query IH]].
    + left. by rewrite <- IH.
    + right. exists query. by rewrite string_app_cons, <- IH.
Qed.

Lemma before_first_cut (key rest : string) :
  Py.has_char "?"%char key = false →
  Py.before_first "?"%char (key +:+ "?" +:+ rest) = key.
Proof.
  induction key as [|a key IH]; [done|]. simpl.
  intros [Ha Hq]%orb_false_iff.
  rewrite string_app_cons. simpl. rewrite Ha. f_equal. by apply IH.
Qed.

Lemma before_first_whole (key : string) :
  Py.has_char "?"%char key = false → Py.before_first "?"%char key = key.
Proof.
  induction key as [|a key IH]; [done|]. simpl.
  intros [Ha Hq]%orb_false_iff. rewrite Ha. by rewrite IH.
Qed.

Lemma truncated_clean_url (u key : string) :
  truncated_at_query u key → clean_url u = key.
Proof.
  unfold truncated_at_query, clean_url. intros [Hq [->|[query ->]]].
  - by apply before_first_whole.
  - by apply before_first_cut.
Qed.

(** C1. Deduplication keys every candidate by its canonical URL, the URL
    cut at its first question mark.  For a candidate [c] with canonical
    URL [key], exactly one item with URL [key] survives, and its kind is
    the kind of the last candidate, in extraction order, whose URL is
    [key] or [key] followed by a query string.  Every surviving item
    carries the canonical URL of some candidate. *)
Theorem dedup_last_write_wins (media_elements : list candidate) (c : candidate) :
  c ∈ media_elements →
  ∃ key before winner after,
    clean_url c.2 = key
    ∧ truncated_at_query c.2 key
    ∧ media_elements = before ++ winner :: after
    ∧ truncated_at_query winner.2 key
    ∧ (∀ c', c' ∈ after → ¬ truncated_at_query c'.2 key)
    ∧ filter (λ it, it.2 = key) (media_list media_elements) = [(winner.1, key)]
    ∧ (∀ it, it ∈ media_list media_elements →
             ∃ c', c' ∈ media_elements ∧ truncated_at_query c'.2 it.2).
Proof.
  intros Hc.
  destruct (media_list_survivor media_elements c Hc) as (winner & Hlast & Hfilter).
  pose proof Hlast as Hwin. unfold same_canonical in Hwin.
  apply last_filter_Some in Hlast as (before & after & Hl & Hafter).
  assert (clean_url winner.2 = clean_url c.2) as Hw.
  { assert (winner ∈ same_canonical (clean_url c.2) media_elements) as Hin.
    { apply last_Some in Hwin as [l' Hl']. unfold same_canonical.
      rewrite Hl'. set_solver. }
    by apply list_elem_of_filter in Hin as [? _]. }
  exists (clean_url c.2), before, winner, after.
  split_and!; [done | apply clean_url_truncated | done | | | done |].
  - rewrite <- Hw. apply clean_url_truncated.
  - intros c' Hc' Htr. rewrite Forall_forall in Hafter.
    apply (Hafter c' Hc'). by apply truncated_clean_url.
  - intros it Hit. apply media_list_from_candidate in Hit as (c' & Hc' & ->).
    exists c'. split; [done | apply clean_url_truncated].
Qed.

Lemma dedup_last_write_wins_witness :
  let l := [(Image, "https://i.pinimg.com/a.jpg?x=1");
            (Image, "https://i.pinimg.com/b.png");
            (Video, "https://i.pinimg.com/a.jpg?y=2")] in
  (Image, "https://i.pinimg.com/a.jpg?x=1") ∈ l
  ∧ media_list l = [(Video, "https://i.pinimg.com/a.jpg");
                    (Image, "https://i.pinimg.com/b.png")]
  ∧ filter (λ it, it.2 = "https://i.pinimg.com/a.jpg") (media_list l)
    = [(Video, "https://i.pinimg.com/a.jpg")].
Proof.
  intros l.
  assert (Hc : (Image, "https://i.pinimg.com/a.jpg?x=1") ∈ l)
    by apply list_elem_of_here.
  destruct (dedup_last_write_wins l _ Hc)
    as (key & before & winner & after & Hkey & _ & _ & _ & _ & Hfilter & _).
  vm_compute in Hkey. subst key. destruct winner as [wk wu].
  split; [exact Hc|]. split; [reflexivity|].
  assert (wk = Video) as ->.
  { vm_compute in Hfilter. by injection Hfilter. }
  exact Hfilter.
Defined.

(** ** Collision resolution *)

Section Probe.
Variable exists_ : gset string.
Variables save_folder filename : string.

(** Run from turn [j] with enough fuel to reach a free path: the loop
    stops at the first free path from [j] on. *)
Lemma probe_first_free (fuel j m : nat) :
  j ≤ m → m ≤ j + fuel → path_at save_folder filename m ∉ exists_ →
  ∃ n, j ≤ n
       ∧ probe exists_ save_folder filename fuel (S j) (path_at save_folder filename j)
         = Some (path_at save_folder filename n)
       ∧ (path_at save_folder filename n ∉ exists_)
       ∧ ∀ i, j ≤ i < n → path_at save_folder filename i ∈ exists_.
Proof.
  revert j. induction fuel as [|fuel IH]; intros j Hjm Hm Hfree.
  - assert (m = j) as -> by lia. exists j. simpl.
    rewrite bool_decide_eq_false_2 by done.
    split_and!; [lia | done | done | intros; lia].
  - simpl. destruct (decide (path_at save_folder filename j ∈ exists_)) as [Hin|Hout].
    + rewrite bool_decide_eq_true_2 by done.
      assert (j ≠ m) by (intros ->; done).
      destruct (IH (S j)) as (n & Hn & Hrun & Hnfree & Hbelow); [lia..|done|].
      exists n. split_and!; [lia | exact Hrun | done |].
      intros i Hi. destruct (decide (i = j)) as [->|]; [done|].
      apply Hbelow. lia.
    + rewrite bool_decide_eq_false_2 by done.
      exists j. split_and!; [lia | done | done | intros; lia].
Qed.

(** Pigeonhole: the numbered paths are pairwise distinct, so they cannot
    all exist. *)
Lemma some_numbered_free :
  ∃ m, 1 ≤ m ≤ S (size exists_) ∧ path_at save_folder filename m ∉ exists_.
Proof.
  set (cands := numbered save_folder filename <$> seq 1 (S (size exists_))).
  destruct (decide (Forall (λ p, p ∈ exists_) cands)) as [Hall|Hnot].
  - exfalso.
    assert (NoDup cands) as Hnd.
    { apply (NoDup_fmap_2 (numbered save_folder filename)), NoDup_seq. }
    assert (list_to_set cands ⊆ exists_) as Hsub.
    { intros p Hp%elem_of_list_to_set.
      rewrite Forall_forall in Hall. by apply Hall. }
    apply subseteq_size in Hsub.
    rewrite size_list_to_set in Hsub by done.
    unfold cands in Hsub. rewrite length_fmap, length_seq in Hsub. lia.
  - apply not_Forall_Exists, Exists_exists in Hnot as (p & Hp & Hfree);
      [|apply _].
    apply list_elem_of_fmap in Hp as (m & -> & Hm%elem_of_seq).
    exists m. split; [lia|]. destruct m; [lia | exact Hfree].
Qed.

(** The loop always ends: [unique_path] returns the first free path. *)
Lemma unique_path_total :
  ∃ n, unique_path exists_ save_folder filename = Some (path_at save_folder filename n)
       ∧ (path_at save_folder filename n ∉ exists_)
       ∧ ∀ i, i < n → path_at save_folder filename i ∈ exists_.
Proof.
  destruct some_numbered_free as (m & Hm & Hfree).
  destruct (probe_first_free (S (size exists_)) 0 m)
    as (n & _ & Hrun & Hn & Hbelow); [lia | lia | done |].
  exists n. split_and!; [exact Hrun | done | intros; apply Hbelow; lia].
Qed.

Lemma unique_path_is_Some : is_Some (unique_path exists_ save_folder filename).
Proof. destruct unique_path_total as (n & -> & _); eauto. Qed.

End Probe.

Lemma numbered_photo (save_folder : string) (n : nat) :
  numbered save_folder "photo.jpg" n
  = Path.join save_folder ("photo_" +:+ Py.str n +:+ ".jpg").
Proof. reflexivity. Qed.

(** C4. When the path of the derived file name already exists, the
    collision loop tries [name_1], [name_2], ... (the suffix goes before
    the extension) in increasing order and returns the first of these
    paths that does not exist.  In particular, when [photo.jpg],
    [photo_1.jpg], ..., [photo_(N-1).jpg] exist and [photo_N.jpg] does
    not, the file is written to [photo_N.jpg]. *)
Theorem collision_first_free (exists_ : gset string) (save_folder filename : string) :
  Path.join save_folder filename ∈ exists_ →
  (∃ n, 1 ≤ n
        ∧ unique_path exists_ save_folder filename
          = Some (numbered save_folder filename n)
        ∧ (numbered save_folder filename n ∉ exists_)
        ∧ ∀ i, 1 ≤ i < n → numbered save_folder filename i ∈ exists_)
  ∧ (∀ N, 1 ≤ N →
          filename = "photo.jpg" →
          (∀ i, 1 ≤ i < N →
                Path.join save_folder ("photo_" +:+ Py.str i +:+ ".jpg") ∈ exists_) →
          Path.join save_folder ("photo_" +:+ Py.str N +:+ ".jpg") ∉ exists_ →
          unique_path exists_ save_folder filename
          = Some (Path.join save_folder ("photo_" +:+ Py.str N +:+ ".jpg"))).
Proof.
  intros Hin.
  destruct (unique_path_total exists_ save_folder filename)
    as (n & Hrun & Hfree & Hbelow).
  destruct n as [|n]; [done|].
  split.
  - exists (S n). split_and!; [lia | exact Hrun | exact Hfree |].
    intros [|i] Hi; [lia|]. apply (Hbelow (S i)). lia.
  - intros N HN -> Hbefore HNfree. rewrite Hrun. f_equal.
    rewrite <- numbered_photo. simpl. f_equal.
    destruct (lt_eq_lt_dec (S n) N) as [[Hlt| ->]|Hgt]; [|done|].
    + exfalso. apply Hfree. simpl. rewrite numbered_photo.
      apply Hbefore. lia.
    + exfalso. apply HNfree. rewrite <- numbered_photo.
      destruct N as [|N]; [lia|]. apply (Hbelow (S N)). lia.
Qed.

Lemma collision_first_free_witness :
  let fs : gset string := {["d/photo.jpg"; "d/photo_1.jpg"; "d/photo_2.jpg"]} in
  Path.join "d" "photo.jpg" ∈ fs
  ∧ unique_path fs "d" "photo.jpg" = Some "d/photo_3.jpg".
Proof.
  intros fs.
  assert (Hin : Path.join "d" "photo.jpg" ∈ fs) by (vm_compute; set_solver).
  split; [exact Hin|].
  refine (proj2 (collision_first_free fs "d" "photo.jpg" Hin) 3 _ eq_refl _ _).
  - lia.
  - intros i Hi. assert (i = 1 ∨ i = 2) as [-> | ->] by lia;
      vm_compute; set_solver.
  - vm_compute. set_solver.
Defined.

(** ** File name derivation *)

Lemma split_no_sep (c : ascii) (s : string) :
  Py.rfind c s = None → Py.split c s = [s].
Proof.
  induction s as [|a s IH]; simpl; [done|].
  destruct (Py.rfind c s); [done|].
  case_bool_decide; [done|]. intros _. by rewrite IH.
Qed.

Lemma split_nonempty (c : ascii) (s : string) : Py.split c s ≠ [].
Proof.
  destruct s as [|a s]; simpl; [done|].
  case_bool_decide; [done|]. by destruct (Py.split c s).
Qed.

Lemma split_singleton (c : ascii) (s x : string) :
  Py.split c s = [x] → Py.rfind c s = None.
Proof.
  revert x. induction s as [|a s IH]; intros x; simpl; [done|].
  case_bool_decide as Hac.
  - intros Hs. exfalso. injection Hs as _ Hs. by apply split_nonempty in Hs.
  - pose proof (split_nonempty c s) as Hne.
    destruct (Py.split c s) as [|y [|z l]] eqn:Hs; [done| |done].
    intros _. by rewrite (IH y).
Qed.

Lemma split_last (c : ascii) (s : string) :
  last (Py.split c s)
  = Some (match Py.rfind c s with Some i => Py.drop (S i) s | None => s end).
Proof.
  induction s as [|a s IH]; simpl; [done|].
  destruct (Py.rfind c s) as [i|] eqn:Hr.
  - pose proof (split_nonempty c s) as Hne.
    case_bool_decide.
    + destruct (Py.split c s) as [|x l]; [done|]. exact IH.
    + destruct (Py.split c s) as [|x [|y l]] eqn:Hs; [done| |exact IH].
      apply split_singleton in Hs. congruence.
  - rewrite (split_no_sep c s Hr). by case_bool_decide.
Qed.

Lemma basename_final_segment (path : string) :
  Path.basename path = final_segment path.
Proof. unfold final_segment, Path.basename. by rewrite split_last. Qed.

Lemma in_list_elem_of (x : string) (xs : list string) :
  in_list x xs = true ↔ x ∈ xs.
Proof.
  unfold in_list. rewrite existsb_exists. split.
  - intros (y & Hy%list_elem_of_In & ->%bool_decide_eq_true). done.
  - intros Hx. exists x. split; [by apply list_elem_of_In|].
    by apply bool_decide_eq_true.
Qed.

(** C3. The file name of the item of kind [k] at index [i] comes from the
    final segment of the URL path.  When the segment is empty or has no
    dot, the name is the kind, an underscore, [i + 1] and the default
    extension of the kind ([.mp4] for a video, [.jpg] for an image).
    Otherwise, when the lowercased extension of the segment is not one
    accepted for the kind, the extension is replaced by the default one
    and the base name is kept; an accepted extension leaves the segment
    as the name. *)
Theorem derive_filename_cases (k : kind) (i : nat) (path : string) :
  let segment := final_segment path in
  let current_ext := Py.lower (Path.splitext segment).2 in
  (segment = "" ∨ Py.has_char "."%char segment = false →
   derive_filename k i path
   = media_type k +:+ "_" +:+ Py.str (i + 1) +:+ default_ext k)
  ∧ (segment ≠ "" → Py.has_char "."%char segment = true →
     current_ext ∉ accepted_exts k →
     derive_filename k i path = (Path.splitext segment).1 +:+ default_ext k)
  ∧ (segment ≠ "" → Py.has_char "."%char segment = true →
     current_ext ∈ accepted_exts k →
     derive_filename k i path = segment).
Proof.
  intros segment current_ext. unfold derive_filename.
  rewrite basename_final_segment. fold segment. fold current_ext.
  split_and!.
  - intros [-> | ->].
    + rewrite bool_decide_eq_true_2 by done. by destruct k.
    + rewrite orb_true_r. by destruct k.
  - intros Hne Hdot Hext.
    rewrite bool_decide_eq_false_2, Hdot by done. simpl.
    apply (not_iff_compat (in_list_elem_of _ _)), not_true_is_false in Hext.
    destruct k; simpl in *; by rewrite Hext.
  - intros Hne Hdot Hext.
    rewrite bool_decide_eq_false_2, Hdot by done. simpl.
    apply in_list_elem_of in Hext.
    destruct k; simpl in *; by rewrite Hext.
Qed.

Lemma derive_filename_cases_witness :
  derive_filename Image 6 "/pin/123/" = "image_7.jpg"
  ∧ derive_filename Video 0 "/videos/hls/clip.m3u8" = "clip.mp4"
  ∧ derive_filename Image 0 "/originals/ab/Photo.JPEG" = "Photo.JPEG".
Proof.
  split_and!.
  - apply (proj1 (derive_filename_cases Image 6 "/pin/123/")).
    left. reflexivity.
  - apply (proj1 (proj2 (derive_filename_cases Video 0 "/videos/hls/clip.m3u8"))).
    + discriminate.
    + reflexivity.
    + vm_compute. intros H. repeat (apply elem_of_cons in H as [H|H]; [discriminate|]).
      by apply elem_of_nil in H.
  - apply (proj2 (proj2 (derive_filename_cases Image 0 "/originals/ab/Photo.JPEG"))).
    + discriminate.
    + reflexivity.
    + vm_compute. set_solver.
Defined.

(** ** Substring tests *)

Lemma startswith_spec (p s : string) :
  Py.startswith p s = true ↔ ∃ post, s = p +:+ post.
Proof.
  revert s. induction p as [|a p IH]; intros s; simpl.
  - split; [intros _; by exists s | done].
  - destruct s as [|b s].
    + split; [done | intros [post Heq]; by rewrite string_app_cons in Heq].
    + rewrite andb_true_iff, bool_decide_eq_true, IH. split.
      * intros [-> [post ->]]. by exists post.
      * intros [post Heq]. rewrite string_app_cons in Heq.
        injection Heq as -> ->. eauto.
Qed.

(** [sub in s] holds exactly when [sub] occurs somewhere in [s]. *)
Lemma contains_spec (sub s : string) :
  Py.contains sub s = true ↔ ∃ pre post, s = pre +:+ sub +:+ post.
Proof.
  induction s as [|a s IH]; simpl.
  - rewrite orb_false_r, startswith_spec. split.
    + intros [post Heq]. by exists "", post.
    + intros (pre & post & Heq). destruct pre as [|b pre].
      * by exists post.
      * by rewrite string_app_cons in Heq.
  - rewrite orb_true_iff, startswith_spec, IH. split.
    + intros [[post Heq] | (pre & post & ->)].
      * by exists "", post.
      * by exists (String a pre), post.
    + intros (pre & post & Heq). destruct pre as [|b pre].
      * left. by exists post.
      * right. rewrite string_app_cons in Heq. injection Heq as -> ->. eauto.
Qed.

Lemma any_in_spec (exts : list string) (s : string) :
  Py.any_in exts s = true
  ↔ ∃ ext pre post, ext ∈ exts ∧ s = pre +:+ ext +:+ post.
Proof.
  unfold Py.any_in. rewrite existsb_exists. split.
  - intros (ext & Hin%list_elem_of_In & (pre & post & ->)%contains_spec).
    by exists ext, pre, post.
  - intros (ext & pre & post & Hin & ->). exists ext.
    split; [by apply list_elem_of_In|]. apply contains_spec. eauto.
Qed.

(** ** Image elements *)

Lemma img_url_src (img : node) (s : string) :
  Soup.get img "src" = Some s → s ≠ "" → img_url img = Some s.
Proof.
  intros Hs Hne. unfold img_url. rewrite Hs. simpl.
  by rewrite bool_decide_eq_false_2.
Qed.

Lemma img_url_data_src (img : node) :
  Soup.get img "src" = None → img_url img = Soup.get img "data-src".
Proof. intros Hs. unfold img_url. by rewrite Hs. Qed.

(** An empty [src] is falsy, so it falls back to [data-src] as well. *)
Lemma img_url_empty_src (img : node) :
  Soup.get img "src" = Some "" → img_url img = Soup.get img "data-src".
Proof. intros Hs. unfold img_url. by rewrite Hs. Qed.

(** C7. The URL [u] of an image element ([src], else [data-src]) is
    accepted exactly when its lowercased form contains one of [.jpg],
    [.jpeg], [.png], [.webp], [.gif] at any position; the loop appends a
    candidate for the element exactly in that case. *)
Theorem img_accepts_iff (urljoin : string → string → option string)
    (base : string) (img : node) (u : string) :
  img_url img = Some u →
  (img_accepts img = true
   ↔ ∃ ext pre post, ext ∈ image_exts ∧ Py.lower u = pre +:+ ext +:+ post)
  ∧ img_step urljoin base img
    = if img_accepts img then abs ← urljoin base u; Some [(Image, abs)]
      else Some [].
Proof.
  intros Hu. split.
  - unfold img_accepts. rewrite Hu, andb_true_iff, any_in_spec. split.
    + by intros [_ ?].
    + intros (ext & pre & post & Hext & Hlow). split; [|eauto 6].
      apply negb_true_iff, bool_decide_eq_false. intros ->.
      simpl in Hlow. destruct pre; [|done].
      rewrite string_app_nil_l in Hlow.
      repeat (apply elem_of_cons in Hext as [->|Hext]; [done|]).
      by apply elem_of_nil in Hext.
  - unfold img_step. by rewrite Hu.
Qed.

Lemma img_accepts_iff_witness :
  let img := Tag "img" {["src" := "https://i.pinimg.com/736x/ab/Photo.JPG?fit=1"]} [] in
  img_url img = Some "https://i.pinimg.com/736x/ab/Photo.JPG?fit=1"
  ∧ img_accepts img = true.
Proof.
  intros img.
  assert (Hu : img_url img = Some "https://i.pinimg.com/736x/ab/Photo.JPG?fit=1")
    by (vm_compute; reflexivity).
  split; [exact Hu|].
  apply (proj1 (img_accepts_iff (λ _ r, Some r) "" img _ Hu)).
  exists ".jpg", "https://i.pinimg.com/736x/ab/photo", "?fit=1".
  split; [set_solver | reflexivity].
Defined.

(** ** Structured data *)

Lemma content_url_candidates_Some (data : json) (url : string) :
  has_content_url data url →
  content_url_candidates data = Some [(classify url, url)].
Proof.
  intros (items & -> & Hget & Hne). simpl. rewrite Hget. simpl.
  by rewrite bool_decide_eq_false_2.
Qed.

Lemma content_url_candidates_skip (data : json) :
  (∀ url, ¬ has_content_url data url) →
  default [] (content_url_candidates data) = [].
Proof.
  intros Hno. destruct data as [| | | |l|items]; try done. simpl.
  destruct (Json.get items "contentUrl") as [v|] eqn:Hget; [|done].
  destruct v as [| | |s| |]; simpl; try by repeat case_match.
  case_bool_decide as Hs; [done|]. exfalso.
  apply (Hno s). by exists items.
Qed.

Lemma for_each_script_flat_map (json_loads : string → option json)
    (scripts : list node) (media_elements : list candidate) :
  for_each_script json_loads scripts media_elements
  = media_elements ++ flat_map (script_step json_loads) scripts.
Proof.
  revert media_elements. induction scripts as [|s scripts IH]; intros acc; simpl.
  - by rewrite app_nil_r.
  - by rewrite IH, app_assoc.
Qed.

(** A [contentUrl] holding a non-empty array makes [url.lower()] raise;
    the bare [except] swallows it and nothing is appended. *)
Lemma any_content_url_emits_fails : ¬ any_content_url_emits.
Proof.
  intros Hclaim.
  destruct (Hclaim (loads_table [(array_document, array_data)])
                   (ld_json_script array_document) array_document
                   [("contentUrl", JArr [JStr "https://v1.pinimg.com/videos/clip.mp4"])]
                   (JArr [JStr "https://v1.pinimg.com/videos/clip.mp4"]))
    as [c Hc]; try reflexivity.
  vm_compute in Hc. discriminate.
Qed.

(** C8 (amended). A structured-data script whose text decodes to an
    object with a non-empty string under [contentUrl] yields exactly one
    candidate, carrying that string; it is a video when the lowercased
    string contains [.mp4], [.webm] or [.mov], an image otherwise.  In
    every other case (no text, a parse failure, a value that is not such
    an object) nothing is appended, and the loop goes on with the
    remaining scripts. *)
Theorem script_step_cases (json_loads : string → option json) (script : node) :
  (∀ text data url,
      Soup.string_of script = Some text →
      json_loads text = Some data →
      has_content_url data url →
      script_step json_loads script = [(classify url, url)]
      ∧ (classify url = Video
         ↔ ∃ ext pre post, ext ∈ video_exts ∧ Py.lower url = pre +:+ ext +:+ post)
      ∧ (classify url = Image ∨ classify url = Video))
  ∧ ((∀ text data url,
         Soup.string_of script = Some text →
         json_loads text = Some data →
         ¬ has_content_url data url) →
     script_step json_loads script = []
     ∧ ∀ before after media_elements,
         for_each_script json_loads (before ++ script :: after) media_elements
         = for_each_script json_loads (before ++ after) media_elements).
Proof.
  split.
  - intros text data url Htext Hdata Hurl. split_and!.
    + unfold script_step. rewrite Htext. simpl. rewrite Hdata. simpl.
      by rewrite (content_url_candidates_Some data url).
    + unfold classify. rewrite <- any_in_spec.
      destruct (Py.any_in video_exts (Py.lower url)); split; done.
    + unfold classify. destruct (Py.any_in video_exts (Py.lower url)); eauto.
  - intros Hno.
    assert (script_step json_loads script = []) as Hskip.
    { unfold script_step.
      destruct (Soup.string_of script) as [text|] eqn:Htext; [|done]. simpl.
      destruct (json_loads text) as [data|] eqn:Hdata; [|done]. simpl.
      apply content_url_candidates_skip. intros url. by eapply Hno. }
    split; [done|]. intros before after acc.
    rewrite !for_each_script_flat_map, !flat_map_app. simpl.
    by rewrite Hskip.
Qed.

Lemma script_step_cases_witness :
  let loads := loads_table [(video_document, video_data); (array_document, array_data)] in
  script_step loads (ld_json_script video_document)
  = [(Video, "https://v1.pinimg.com/videos/clip.MP4")]
  ∧ script_step loads (ld_json_script array_document) = []
  ∧ script_step loads (ld_json_script "{not json") = [].
Proof.
  intros loads. split_and!.
  - refine (proj1 (proj1 (script_step_cases loads (ld_json_script video_document))
                     video_document video_data
                     "https://v1.pinimg.com/videos/clip.MP4" eq_refl eq_refl _)).
    exists [("contentUrl", JStr "https://v1.pinimg.com/videos/clip.MP4")].
    split_and!; [reflexivity | reflexivity | discriminate].
  - apply (proj2 (script_step_cases loads (ld_json_script array_document))).
    intros text data url Htext Hdata (items & -> & Hget & _).
    injection Htext as <-. vm_compute in Hdata. injection Hdata as <-.
    vm_compute in Hget. discriminate.
  - apply (proj2 (script_step_cases loads (ld_json_script "{not json"))).
    intros text data url Htext Hdata _.
    injection Htext as <-. vm_compute in Hdata. discriminate.
Defined.

(** ** Absolute URLs *)

(** The first three loops pass every URL through [urljoin]. *)
Lemma for_each_resolved (urljoin : string → string → option string)
    (base : string) (step : node → option (list candidate))
    (elements : list node) (acc out : list candidate) :
  (∀ e new c, step e = Some new → c ∈ new → ∃ u, urljoin base u = Some c.2) →
  for_each step elements acc = Some out →
  ∀ c, c ∈ out → c ∈ acc ∨ ∃ u, urljoin base u = Some c.2.
Proof.
  intros Hstep. revert acc.
  induction elements as [|e elements IH]; intros acc; simpl.
  - intros [= <-] c Hc. by left.
  - destruct (step e) as [new|] eqn:He; [|done].
    intros Hrun c Hc. destruct (IH _ Hrun c Hc) as [Hin|?]; [|by right].
    apply elem_of_app in Hin as [?|Hnew]; [by left|].
    right. by eapply Hstep.
Qed.

Lemma img_step_resolved (urljoin : string → string → option string)
    (base : string) (e : node) (new : list candidate) (c : candidate) :
  img_step urljoin base e = Some new → c ∈ new →
  ∃ u, urljoin base u = Some c.2.
Proof.
  unfold img_step. destruct (img_url e) as [u|]; [|by intros [= <-] ?%elem_of_nil].
  destruct (img_accepts e); [|by intros [= <-] ?%elem_of_nil].
  destruct (urljoin base u) as [abs|] eqn:Hj; [|done].
  intros [= <-] ->%list_elem_of_singleton. eauto.
Qed.

Lemma video_step_resolved (urljoin : string → string → option string)
    (base : string) (e : node) (new : list candidate) (c : candidate) :
  video_step urljoin base e = Some new → c ∈ new →
  ∃ u, urljoin base u = Some c.2.
Proof.
  unfold video_step.
  destruct (video_url e) as [u|]; [|by intros [= <-] ?%elem_of_nil].
  destruct (_ && _); [|by intros [= <-] ?%elem_of_nil].
  destruct (urljoin base u) as [abs|] eqn:Hj; [|done].
  intros [= <-] ->%list_elem_of_singleton. eauto.
Qed.

Lemma div_step_resolved (urljoin : string → string → option string)
    (base : string) (e : node) (new : list candidate) (c : candidate) :
  div_step urljoin base e = Some new → c ∈ new →
  ∃ u, urljoin base u = Some c.2.
Proof.
  unfold div_step.
  destruct (Soup.get e "data-video-src") as [u|]; [|by intros [= <-] ?%elem_of_nil].
  destruct (negb _); [|by intros [= <-] ?%elem_of_nil].
  destruct (urljoin base u) as [abs|] eqn:Hj; [|done].
  intros [= <-] ->%list_elem_of_singleton. eauto.
Qed.

(** Every candidate is either a result of [urljoin] or comes, as it is,
    from a structured-data script. *)
Lemma extract_resolved_or_structured (urljoin : string → string → option string)
    (json_loads : string → option json) (base : string) (soup : node)
    (media_elements : list candidate) (c : candidate) :
  extract urljoin json_loads base soup = Some media_elements →
  c ∈ media_elements →
  (∃ u, urljoin base u = Some c.2)
  ∨ ∃ script, script ∈ Soup.find_all soup "script" [("type", "application/ld+json")]
              ∧ c ∈ script_step json_loads script.
Proof.
  unfold extract.
  destruct (for_each _ (Soup.find_all soup "img" []) []) as [m1|] eqn:H1; [|done].
  simpl. destruct (for_each _ (Soup.find_all soup "video" []) m1) as [m2|] eqn:H2; [|done].
  simpl. destruct (for_each _ (Soup.find_all soup "div" _) m2) as [m3|] eqn:H3; [|done].
  simpl. intros [= <-]. rewrite for_each_script_flat_map.
  intros [Hc|Hc]%elem_of_app.
  - left.
    destruct (for_each_resolved urljoin base _ _ _ _ (div_step_resolved urljoin base) H3 c Hc)
      as [Hc2|?]; [|done].
    destruct (for_each_resolved urljoin base _ _ _ _ (video_step_resolved urljoin base) H2 c Hc2)
      as [Hc1|?]; [|done].
    destruct (for_each_resolved urljoin base _ _ _ _ (img_step_resolved urljoin base) H1 c Hc1)
      as [?%elem_of_nil|?]; done.
  - right. apply list_elem_of_In, in_flat_map in Hc as (script & Hs & Hin).
    exists script. split; by apply list_elem_of_In.
Qed.

(** C5. On a page whose structured data names a relative [contentUrl],
    the image URL goes through [urljoin] while the structured-data URL is
    taken as it is, so the candidate does not carry an absolute URL. *)
Theorem structured_data_url_not_resolved
    (urljoin : string → string → option string) (resolved : string) :
  let base := "https://www.pinterest.com/pin/123/" in
  urljoin base "/static/img1.png" = Some resolved →
  extract urljoin (loads_table [(relative_document, relative_data)]) base
          relative_page
  = Some [(Image, resolved); (Video, "/static/clip.mp4")]
  ∧ is_absolute "/static/clip.mp4" = false.
Proof.
  intros base Hjoin. split; [|reflexivity].
  unfold extract, relative_page. 
  replace (Soup.find_all _ "img" [])
    with [Tag "img" {["src" := "/static/img1.png"]} []] by (vm_compute; reflexivity).
  replace (Soup.find_all _ "video" []) with (@nil node) by (vm_compute; reflexivity).
  replace (Soup.find_all _ "div" _) with (@nil node) by (vm_compute; reflexivity).
  replace (Soup.find_all _ "script" _)
    with [ld_json_script relative_document] by (vm_compute; reflexivity).
  simpl for_each.
  replace (img_step urljoin base _)
    with (abs ← urljoin base "/static/img1.png"; Some [(Image, abs)])
    by (unfold img_step; vm_compute img_url; vm_compute img_accepts; reflexivity).
  rewrite Hjoin. simpl. reflexivity.
Qed.

Lemma structured_data_url_not_resolved_witness :
  let urljoin := λ _ r : string, Some ("https://www.pinterest.com" +:+ r) in
  extract urljoin (loads_table [(relative_document, relative_data)])
          "https://www.pinterest.com/pin/123/" relative_page
  = Some [(Image, "https://www.pinterest.com/static/img1.png");
          (Video, "/static/clip.mp4")].
Proof.
  intros urljoin.
  exact (proj1 (structured_data_url_not_resolved urljoin
                  "https://www.pinterest.com/static/img1.png" eq_refl)).
Defined.

(** ** The run *)

(** [url.split('?')[0]] has no question mark left. *)
Lemma clean_url_no_query (u : string) : Py.has_char "?"%char (clean_url u) = false.
Proof.
  unfold clean_url. induction u as [|a u IH]; simpl; [done|].
  case_bool_decide as Ha; simpl; [done|].
  by rewrite IH, bool_decide_eq_false_2.
Qed.

Section Run.
Variable requests_get : nat → string → response.
Variable html_parser : string → option node.
Variable json_loads : string → option json.
Variable urljoin : string → string → option string.
Variable urlparse_path : string → option string.
Variable open_wb : nat → string → bool.
Variable url save_folder : string.

Local Abbreviation iteration :=
  (download_one requests_get urlparse_path open_wb save_folder).
Local Abbreviation loop :=
  (download_loop requests_get urlparse_path open_wb save_folder).

(** One iteration always ends, with exactly one line, about its own
    item; it only requests the URL of the item. *)
Lemma download_one_outcome (exists_ : gset string) (i total : nat)
    (item : candidate) :
  ∃ evs exists' m,
    iteration exists_ i total item = Some (evs, exists')
    ∧ emitted evs = [m]
    ∧ outcome_for item i total m
    ∧ (∀ u s, Get u s ∈ evs → u = item.2 ∧ s = true)
    ∧ (∀ k f n t, m = Downloaded k f n t →
         ∃ path, urlparse_path item.2 = Some path ∧ f = derive_filename k i path)
    ∧ (downloadable requests_get urlparse_path open_wb i item →
       ∃ f, m = Downloaded item.1 f (i + 1) total).
Proof.
  destruct item as [k u]. unfold download_one, downloadable, outcome_for. simpl.
  destruct (urlparse_path u) as [path|] eqn:Hpath.
  - destruct (unique_path_is_Some exists_ save_folder (derive_filename k i path))
      as [filepath ->]. simpl.
    destruct (requests_get (S i) u) as [|status text complete] eqn:Hget.
    + eexists _, _, _. split_and!; [done | done | eauto | | done |].
      * intros u' s [[= -> ->]|Hin]%elem_of_cons; [done|]. set_solver.
      * intros (_ & (? & ? & [=] & _) & _).
    + destruct (is_http_error status) eqn:Herr;
        [|destruct (open_wb i filepath) eqn:Hopen; [destruct complete|]].
      * eexists _, _, _. split_and!; [done | done | eauto | | done |].
        -- intros u' s [[= -> ->]|Hin]%elem_of_cons; [done|]. set_solver.
        -- intros (_ & (? & ? & [= <- _] & ?) & _). congruence.
      * eexists _, _, _. split_and!; [done | done | eauto | | | eauto].
        -- intros u' s [[= -> ->]|Hin]%elem_of_cons; [done|]. set_solver.
        -- intros ? ? ? ? [= <- <- _ _]. eauto.
      * eexists _, _, _. split_and!; [done | done | eauto | | done |].
        -- intros u' s [[= -> ->]|Hin]%elem_of_cons; [done|]. set_solver.
        -- intros (_ & (? & ? & [=] & _) & _).
      * eexists _, _, _. split_and!; [done | done | eauto | | done |].
        -- intros u' s [[= -> ->]|Hin]%elem_of_cons; [done|]. set_solver.
        -- intros (_ & _ & Hopen'). rewrite Hopen' in Hopen. done.
  - eexists _, _, _. split_and!; [done | done | eauto | | done |].
    + intros u' s Hin. set_solver.
    + intros ([? [=]] & _).
Qed.

(** The loop always ends, with one line per item, in order. *)
Lemma download_loop_outcomes (items : list candidate) :
  ∀ (exists_ : gset string) (i total : nat),
  ∃ log,
    loop exists_ i total items = Some log
    ∧ List.length (emitted log) = List.length items
    ∧ (∀ j item, items !! j = Some item →
         ∃ m, emitted log !! j = Some m
              ∧ outcome_for item (i + j) total m
              ∧ (downloadable requests_get urlparse_path open_wb (i + j) item →
                 ∃ f, m = Downloaded item.1 f (i + j + 1) total)
              ∧ (∀ k f n t, m = Downloaded k f n t →
                   ∃ path, urlparse_path item.2 = Some path
                           ∧ f = derive_filename k (i + j) path))
    ∧ (∀ u s, Get u s ∈ log → s = true ∧ ∃ item, item ∈ items ∧ u = item.2).
Proof.
  induction items as [|item items IH]; intros exists_ i total.
  - exists []. split_and!; [done | done | done |].
    intros u s Hin. by apply elem_of_nil in Hin.
  - destruct (download_one_outcome exists_ i total item)
      as (evs & exists' & m & Hone & Hm & Hout & Hget & Hname & Hok).
    destruct (IH exists' (S i) total) as (more & Hrest & Hlen & Hnth & Hgets).
    exists (evs ++ more). simpl. rewrite Hone. simpl. rewrite Hrest. simpl.
    unfold emitted in *. rewrite omap_app, Hm. simpl.
    split_and!; [done | by rewrite Hlen | |].
    + intros [|j] item' Hitem; simpl in *.
      * injection Hitem as <-. exists m. rewrite Nat.add_0_r.
        split_and!; done.
      * destruct (Hnth j item' Hitem) as (m' & Hm' & Hout' & Hok' & Hname').
        exists m'. replace (i + S j) with (S i + j) by lia.
        split_and!; done.
    + intros u s [Hin|Hin]%elem_of_app.
      * destruct (Hget u s Hin) as [-> ->]. split; [done|].
        exists item. split; [set_solver | done].
      * destruct (Hgets u s Hin) as [-> (item' & ? & ->)]. split; [done|].
        exists item'. split; [set_solver | done].
Qed.

(** C6. The URL requested for an item, and the URL whose path names the
    file, is the canonical URL of a candidate: it has no query string
    left, whatever the extracted URL carried. *)
Theorem downloads_use_clean_url (exists_ : gset string) (text : string)
    (complete : bool) (soup : node) (media_elements : list candidate)
    (log : list event) :
  requests_get 0 url = Response 200 text complete →
  html_parser text = Some soup →
  extract urljoin json_loads url soup = Some media_elements →
  run requests_get html_parser json_loads urljoin urlparse_path open_wb url
      save_folder exists_ = Some log →
  (∀ u, Get u true ∈ log →
        Py.has_char "?"%char u = false
        ∧ ∃ c, c ∈ media_elements ∧ u = clean_url c.2)
  ∧ (∀ k f n t, Emit (Downloaded k f n t) ∈ log →
        ∃ c path, c ∈ media_elements
                  ∧ urlparse_path (clean_url c.2) = Some path
                  ∧ f = derive_filename k (n - 1) path).
Proof.
  intros Hpage Hparse Hextract. unfold run.
  rewrite Hpage. simpl. rewrite Hparse, Hextract.
  destruct (media_list media_elements) as [|item items] eqn:Hitems.
  { intros [= <-]. split; intros; set_solver. }
  destruct (download_loop_outcomes (item :: items) exists_ 0
              (List.length (item :: items)))
    as (loop_log & Hloop & Hlen & Hnth & Hgets).
  rewrite Hloop. simpl. intros [= <-].
  assert (Hclean : ∀ it, it ∈ item :: items →
                         ∃ c, c ∈ media_elements ∧ it.2 = clean_url c.2).
  { intros it Hit. rewrite <- Hitems in Hit.
    by apply media_list_from_candidate. }
  split.
  - intros u Hin.
    assert (Get u true ∈ loop_log) as Hin' by set_solver.
    destruct (Hgets u true Hin') as [_ (it & Hit & ->)].
    destruct (Hclean it Hit) as (c & Hc & ->).
    split; [apply clean_url_no_query | eauto].
  - intros k f n t Hin.
    assert (Emit (Downloaded k f n t) ∈ loop_log) as Hin' by set_solver.
    assert (Downloaded k f n t ∈ emitted loop_log) as Hm.
    { unfold emitted. apply list_elem_of_omap. by exists (Emit (Downloaded k f n t)). }
    apply list_elem_of_lookup in Hm as [j Hj].
    assert (j < List.length (item :: items)) as Hlt.
    { rewrite <- Hlen. by eapply lookup_lt_Some. }
    destruct (lookup_lt_is_Some_2 (item :: items) j Hlt) as [it Hit].
    destruct (Hnth j it Hit) as (m & Hm & Hout & _ & Hname).
    rewrite Hj in Hm. injection Hm as <-.
    destruct (Hname k f n t eq_refl) as (path & Hpath & ->).
    destruct Hout as [(f' & [= _ _ -> _]) | (? & [=])].
    destruct (Hclean it) as (c & Hc & Hcu); [by eapply list_elem_of_lookup_2|].
    exists c, path. rewrite <- Hcu.
    split_and!; [done | done | f_equal; simpl; lia].
Qed.

(** C9. When the page is fetched and the four loops append nothing,
    deduplication yields nothing and the run only reports that no media
    was found: no download is attempted, no file is opened, and no
    error is reported. *)
Theorem no_media_found (exists_ : gset string) (text : string) (complete : bool)
    (soup : node) :
  requests_get 0 url = Response 200 text complete →
  html_parser text = Some soup →
  extract urljoin json_loads url soup = Some [] →
  media_list [] = []
  ∧ run requests_get html_parser json_loads urljoin urlparse_path open_wb url
        save_folder exists_
    = Some [Emit (Accessing url); Get url false; Emit NoMediaFound]
  ∧ ∀ log,
      run requests_get html_parser json_loads urljoin urlparse_path open_wb url
          save_folder exists_ = Some log →
      (∀ u, Get u true ∉ log) ∧ (∀ path, Open path ∉ log)
      ∧ Emit CriticalError ∉ log.
Proof.
  intros Hpage Hparse Hextract.
  assert (run requests_get html_parser json_loads urljoin urlparse_path open_wb
              url save_folder exists_
          = Some [Emit (Accessing url); Get url false; Emit NoMediaFound])
    as Hrun.
  { unfold run. rewrite Hpage. simpl. by rewrite Hparse, Hextract. }
  split_and!; [done | done |].
  intros log. rewrite Hrun. intros [= <-].
  split_and!; intros; set_solver.
Qed.

(** C10. When the status of the page is not 200 the run reports the
    failure once and stops: whatever the body and the parsers are,
    nothing is extracted, requested or written. *)
Theorem page_status_not_200 (exists_ : gset string) (status : Z) (text : string)
    (complete : bool) :
  requests_get 0 url = Response status text complete →
  status ≠ 200%Z →
  run requests_get html_parser json_loads urljoin urlparse_path open_wb url
      save_folder exists_
  = Some [Emit (Accessing url); Get url false; Emit PageFailed]
  ∧ ∀ log,
      run requests_get html_parser json_loads urljoin urlparse_path open_wb url
          save_folder exists_ = Some log →
      List.length (filter (λ e, e = Emit PageFailed) log) = 1
      ∧ (∀ u, Get u true ∉ log) ∧ (∀ path, Open path ∉ log).
Proof.
  intros Hpage Hstatus.
  assert (run requests_get html_parser json_loads urljoin urlparse_path open_wb
              url save_folder exists_
          = Some [Emit (Accessing url); Get url false; Emit PageFailed])
    as Hrun.
  { unfold run. rewrite Hpage.
    by rewrite (proj2 (Z.eqb_neq status 200) Hstatus). }
  split; [done|].
  intros log. rewrite Hrun. intros [= <-].
  split_and!; [done | intros; set_solver | intros; set_solver].
Qed.

End Run.

(** ** A sample run *)

Example pin_run_log : pin_run {["Pinterest_downloads/b.jpg"]} = Some pin_log.
Proof. vm_compute. reflexivity. Qed.

Lemma downloads_use_clean_url_witness :
  (∀ u, Get u true ∈ pin_log →
        Py.has_char "?"%char u = false
        ∧ ∃ c, c ∈ [(Image, "https://i.pinimg.com/originals/a.png");
                    (Image, "https://i.pinimg.com/originals/b.jpg?x=1");
                    (Video, "https://v1.pinimg.com/videos/c.mp4")]
               ∧ u = clean_url c.2)
  ∧ (∀ k f n t, Emit (Downloaded k f n t) ∈ pin_log →
        ∃ c path, c ∈ [(Image, "https://i.pinimg.com/originals/a.png");
                       (Image, "https://i.pinimg.com/originals/b.jpg?x=1");
                       (Video, "https://v1.pinimg.com/videos/c.mp4")]
                  ∧ simple_urlparse_path (clean_url c.2) = Some path
                  ∧ f = derive_filename k (n - 1) path).
Proof.
  apply (downloads_use_clean_url pin_site (λ _, Some pin_page) (loads_table [])
           urljoin_absolute simple_urlparse_path (λ _ _, true) pin_url
           "Pinterest_downloads" {["Pinterest_downloads/b.jpg"]} "" true pin_page).
  - reflexivity.
  - reflexivity.
  - vm_compute. reflexivity.
  - vm_compute. reflexivity.
Defined.

Lemma no_media_found_witness :
  run (λ _ _, Response 200 "<html></html>" true)
      (λ _, Some (Tag "[document]" ∅ [Tag "html" ∅ []])) (loads_table [])
      urljoin_absolute simple_urlparse_path (λ _ _, true) pin_url
      "Pinterest_downloads" ∅
  = Some [Emit (Accessing pin_url); Get pin_url false; Emit NoMediaFound].
Proof.
  apply (no_media_found (λ _ _, Response 200 "<html></html>" true)
           (λ _, Some (Tag "[document]" ∅ [Tag "html" ∅ []])) (loads_table [])
           urljoin_absolute simple_urlparse_path (λ _ _, true) pin_url
           "Pinterest_downloads" ∅ "<html></html>" true
           (Tag "[document]" ∅ [Tag "html" ∅ []])).
  - reflexivity.
  - reflexivity.
  - vm_compute. reflexivity.
Defined.

Lemma page_status_not_200_witness :
  run (λ _ _, Response 403 "Forbidden" true) (λ _, Some pin_page) (loads_table [])
      urljoin_absolute simple_urlparse_path (λ _ _, true) pin_url
      "Pinterest_downloads" ∅
  = Some [Emit (Accessing pin_url); Get pin_url false; Emit PageFailed].
Proof.
  apply (page_status_not_200 (λ _ _, Response 403 "Forbidden" true)
           (λ _, Some pin_page) (loads_table []) urljoin_absolute
           simple_urlparse_path (λ _ _, true) pin_url "Pinterest_downloads" ∅
           403%Z "Forbidden" true).
  - reflexivity.
  - discriminate.
Defined.

(** * Further properties *)

(** ** Extraction order and the video loop *)

Lemma for_each_acc (step : node → option (list candidate))
    (elements : list node) (acc : list candidate) :
  for_each step elements acc = (acc ++.) <$> for_each step elements [].
Proof.
  revert acc. induction elements as [|e elements IH]; intros acc; simpl.
  - by rewrite app_nil_r.
  - destruct (step e) as [new|]; [|done].
    rewrite (IH (acc ++ new)), (IH new). simpl.
    destruct (for_each step elements []); simpl; [|done].
    by rewrite app_assoc.
Qed.

(** X1. The candidates come out in the order of the four loops: those of
    the image elements, then of the video elements, then of the video
    containers, then of the structured-data scripts, each group in
    document order. *)
Theorem extract_in_loop_order (urljoin : string → string → option string)
    (json_loads : string → option json) (base : string) (soup : node) :
  extract urljoin json_loads base soup
  = (imgs ← for_each (img_step urljoin base) (Soup.find_all soup "img" []) [];
     vids ← for_each (video_step urljoin base) (Soup.find_all soup "video" []) [];
     divs ← for_each (div_step urljoin base)
              (Soup.find_all soup "div" [("data-test-id", "video-component")]) [];
     Some (imgs ++ vids ++ divs
             ++ flat_map (script_step json_loads)
                  (Soup.find_all soup "script" [("type", "application/ld+json")]))).
Proof.
  unfold extract.
  destruct (for_each (img_step urljoin base) _ []) as [imgs|]; [|done]. simpl.
  rewrite for_each_acc.
  destruct (for_each (video_step urljoin base) _ []) as [vids|]; [|done]. simpl.
  rewrite for_each_acc.
  destruct (for_each (div_step urljoin base) _ []) as [divs|]; [|done]. simpl.
  by rewrite for_each_script_flat_map, <- !app_assoc.
Qed.



(** ** More on deduplication *)

Lemma first_occurrences_snoc (xs : list string) (k : string) :
  first_occurrences (xs ++ [k])
  = if bool_decide (k ∈ xs) then first_occurrences xs
    else first_occurrences xs ++ [k].
Proof.
  unfold first_occurrences. rewrite reverse_snoc. simpl.
  destruct (decide_rel elem_of k (reverse xs)) as [Hin|Hin].
  - rewrite bool_decide_eq_true_2; [done|]. by apply elem_of_reverse.
  - rewrite bool_decide_eq_false_2, reverse_cons; [done|].
    by rewrite <- elem_of_reverse.
Qed.

Lemma elem_of_first_occurrences (xs : list string) (k : string) :
  k ∈ first_occurrences xs ↔ k ∈ xs.
Proof.
  unfold first_occurrences.
  by rewrite elem_of_reverse, elem_of_remove_dups, elem_of_reverse.
Qed.

Lemma unique_media_keys (l : list candidate) :
  (unique_media l).*1 = first_occurrences (clean_url <$> l.*2).
Proof.
  induction l as [|c l IH] using rev_ind; [done|].
  rewrite unique_media_snoc, dict_set_keys, !fmap_app. csimpl.
  rewrite first_occurrences_snoc, IH.
  destruct (decide (clean_url c.2 ∈ clean_url <$> l.*2)) as [Hin|Hin].
  - rewrite !bool_decide_eq_true_2; [done..|]. by apply elem_of_first_occurrences.
  - rewrite !bool_decide_eq_false_2; [done..|]. by rewrite elem_of_first_occurrences.
Qed.

Lemma media_list_urls (l : list candidate) :
  (media_list l).*2 = (unique_media l).*1.
Proof.
  unfold media_list.
  assert (Hinv : ∀ e, e ∈ unique_media l → e.2.2 = e.1)
    by (intros e He; by apply unique_media_entries in He as [? _]).
  induction (unique_media l) as [|e d IH]; [done|].
  csimpl. f_equal; [apply Hinv; set_solver|].
  apply IH. intros; apply Hinv; set_solver.
Qed.

Lemma dict_set_length {V} (d : list (string * V)) (k : string) (v : V) :
  List.length (dict_set d k v) ≤ S (List.length d).
Proof.
  induction d as [|[k0 v0] d IH]; simpl; [lia|].
  case_bool_decide; simpl; lia.
Qed.

Lemma dict_set_fresh {V} (d : list (string * V)) (k : string) (v : V) :
  k ∉ d.*1 → dict_set d k v = d ++ [(k, v)].
Proof.
  induction d as [|[k0 v0] d IH]; csimpl; [done|].
  intros Hk. rewrite bool_decide_eq_false_2 by set_solver.
  rewrite IH; [done | set_solver].
Qed.

Lemma clean_url_idemp (u : string) : clean_url (clean_url u) = clean_url u.
Proof.
  unfold clean_url. induction u as [|a u IH]; simpl; [done|].
  case_bool_decide as Ha; simpl; [done|].
  by rewrite bool_decide_eq_false_2, IH.
Qed.

Lemma clean_url_no_mark (u : string) :
  Py.has_char "?"%char u = false → clean_url u = u.
Proof.
  unfold clean_url. induction u as [|a u IH]; simpl; [done|].
  intros [Ha Hu]%orb_false_iff. rewrite Ha. by rewrite IH.
Qed.

(** X3. The items keep the order in which their canonical URLs first
    appear among the candidates: a later duplicate changes the kind of
    an item but not its place. *)
Theorem media_list_first_seen_order (media_elements : list candidate) :
  (media_list media_elements).*2
  = first_occurrences (clean_url <$> media_elements.*2).
Proof. by rewrite media_list_urls, unique_media_keys. Qed.

(** X4. No two items have the same URL, and there are never more items
    than candidates. *)
Theorem media_list_distinct (media_elements : list candidate) :
  NoDup (media_list media_elements).*2
  ∧ List.length (media_list media_elements) ≤ List.length media_elements.
Proof.
  split.
  - rewrite media_list_urls. apply unique_media_NoDup.
  - unfold media_list. rewrite length_fmap.
    induction media_elements as [|c l IH] using rev_ind; [done|].
    rewrite unique_media_snoc, length_app. simpl.
    pose proof (dict_set_length (unique_media l) (clean_url c.2) (c.1, clean_url c.2)).
    lia.
Qed.

Lemma media_list_id (l : list candidate) :
  NoDup l.*2 → (∀ c, c ∈ l → clean_url c.2 = c.2) → media_list l = l.
Proof.
  intros Hnd Hclean. unfold media_list.
  assert (unique_media l = (λ c, (c.2, c)) <$> l) as ->.
  { induction l as [|c l IH] using rev_ind; [done|].
    rewrite fmap_app in Hnd. apply NoDup_app in Hnd as (Hnd & Hfresh & _).
    rewrite unique_media_snoc, IH by (done || intros; apply Hclean; set_solver).
    rewrite (Hclean c) by set_solver.
    rewrite dict_set_fresh.
    - rewrite fmap_app. destruct c. done.
    - rewrite <- list_fmap_compose. intros Hin. apply (Hfresh c.2); [done|].
      set_solver. }
  rewrite <- list_fmap_compose. apply list_fmap_id.
Qed.

(** X5. Candidates with pairwise distinct URLs and no query string pass
    through deduplication unchanged, in kind, URL and order. *)
Theorem media_list_unchanged (media_elements : list candidate) :
  NoDup media_elements.*2 →
  (∀ c, c ∈ media_elements → Py.has_char "?"%char c.2 = false) →
  media_list media_elements = media_elements.
Proof.
  intros Hnd Hq. apply media_list_id; [done|].
  intros c Hc. by apply clean_url_no_mark, Hq.
Qed.

Lemma media_list_unchanged_witness :
  media_list [(Image, "https://i.pinimg.com/originals/a.png");
              (Video, "https://v1.pinimg.com/videos/c.mp4")]
  = [(Image, "https://i.pinimg.com/originals/a.png");
     (Video, "https://v1.pinimg.com/videos/c.mp4")].
Proof.
  apply media_list_unchanged.
  - vm_compute. repeat constructor; set_solver.
  - intros c Hc. repeat (apply elem_of_cons in Hc as [->|Hc]; [reflexivity|]).
    by apply elem_of_nil in Hc.
Defined.

(** X6. Deduplication is idempotent: deduplicating the items again
    changes nothing. *)
Theorem media_list_idempotent (media_elements : list candidate) :
  media_list (media_list media_elements) = media_list media_elements.
Proof.
  apply media_list_id.
  - rewrite media_list_urls. apply unique_media_NoDup.
  - intros it Hit. apply media_list_from_candidate in Hit as (c & _ & ->).
    apply clean_url_idemp.
Qed.

Lemma count_kind_total (items : list candidate) :
  count_kind Image items + count_kind Video items = List.length items.
Proof.
  unfold count_kind. induction items as [|[[] u] items IH]; simpl; lia.
Qed.

(** ** One iteration of the download loop, case by case *)

Lemma unique_path_free (exists_ : gset string) (save_folder filename filepath : string) :
  unique_path exists_ save_folder filename = Some filepath → filepath ∉ exists_.
Proof.
  destruct (unique_path_total exists_ save_folder filename) as (n & -> & Hfree & _).
  by intros [= <-].
Qed.

Section Iteration.
Variable requests_get : nat → string → response.
Variable urlparse_path : string → option string.
Variable open_wb : nat → string → bool.
Variable save_folder : string.

Local Abbreviation iteration_goes :=
  (iteration_case requests_get urlparse_path open_wb save_folder).

Local Abbreviation iteration :=
  (download_one requests_get urlparse_path open_wb save_folder).
Local Abbreviation loop :=
  (download_loop requests_get urlparse_path open_wb save_folder).

Lemma download_one_cases (exists_ : gset string) (i total : nat) (k : kind)
    (u : string) (evs : list event) (exists' : gset string) :
  iteration exists_ i total (k, u) = Some (evs, exists') →
  iteration_goes exists_ i total k u evs exists'.
Proof.
  unfold download_one.
  destruct (urlparse_path u) as [path|] eqn:Hpath.
  - destruct (unique_path exists_ save_folder (derive_filename k i path))
      as [filepath|] eqn:Hunique; [|done]. simpl.
    destruct (requests_get (S i) u) as [|status text complete] eqn:Hget.
    + intros [= <- <-]. by eapply case_request_error.
    + destruct (is_http_error status) eqn:Herr.
      * intros [= <- <-]. by eapply case_http_error.
      * destruct (open_wb i filepath) eqn:Hopen; [destruct complete|];
          intros [= <- <-].
        -- by eapply case_downloaded.
        -- by eapply case_stream_error.
        -- by eapply case_open_error.
  - intros [= <- <-]. by apply case_url_error.
Qed.

(** X7. One iteration only adds to the existing files; it opens a file
    only after a response whose status is not an error, and never at a
    path that exists.  When the URL cannot be parsed, the request raises
    or the status is 4xx or 5xx, no file is opened or created. *)
Theorem download_one_files (exists_ : gset string) (i total : nat)
    (item : candidate) (evs : list event) (exists' : gset string) :
  iteration exists_ i total item = Some (evs, exists') →
  exists_ ⊆ exists'
  ∧ (∀ path, Open path ∈ evs →
       (path ∉ exists_)
       ∧ ∃ status text complete,
           requests_get (S i) item.2 = Response status text complete
           ∧ is_http_error status = false)
  ∧ ((urlparse_path item.2 = None ∨ requests_get (S i) item.2 = Raised
      ∨ ∃ status text complete,
          requests_get (S i) item.2 = Response status text complete
          ∧ is_http_error status = true) →
     exists' = exists_ ∧ ∀ path, Open path ∉ evs).
Proof.
  destruct item as [k u]. intros Hone%download_one_cases. simpl.
  destruct Hone as [Hp|path Hp Hg|path st tx c Hp Hg He
                    |path fp st tx c Hp Hu Hg He Ho
                    |path fp st tx Hp Hu Hg He Ho
                    |path fp st tx Hp Hu Hg He Ho];
    (split_and!; [set_solver | |]).
  all: try (intros p Hin;
            assert (p = fp) as -> by set_solver;
            split; [by eapply unique_path_free | eauto]).
  all: try (intros p Hin; exfalso; set_solver).
  all: try (intros _; split; [done | intros p Hin; set_solver]).
  all: intros [Hn | [Hr | (st' & tx' & c' & Hg' & He')]]; congruence.
Qed.

(** X8. When the body of a good response cannot be read to the end, the
    failure is reported but the file that was opened stays behind. *)
Theorem partial_file_is_kept (exists_ : gset string) (i total : nat)
    (k : kind) (u path : string) (status : Z) (text : string) :
  urlparse_path u = Some path →
  requests_get (S i) u = Response status text false →
  is_http_error status = false →
  (∀ p, open_wb i p = true) →
  ∃ filepath,
    iteration exists_ i total (k, u)
    = Some ([Get u true; Open filepath; Emit (DownloadFailed u StreamError)],
            {[filepath]} ∪ exists_)
    ∧ unique_path exists_ save_folder (derive_filename k i path) = Some filepath
    ∧ filepath ∉ exists_.
Proof.
  intros Hp Hg He Ho.
  destruct (unique_path_is_Some exists_ save_folder (derive_filename k i path))
    as [filepath Hu].
  exists filepath. split_and!; [|done|by eapply unique_path_free].
  unfold download_one. rewrite Hp, Hu. simpl. by rewrite Hg, He, Ho.
Qed.

Lemma created_iteration (exists_ : gset string) (i total : nat) (k : kind)
    (u : string) (evs more : list event) (exists' : gset string) :
  iteration_goes exists_ i total k u evs exists' →
  ∃ new, created (evs ++ more) = new ++ created more
         ∧ media_requests (evs ++ more) `sublist_of` u :: media_requests more
         ∧ (∀ p, p ∈ new → p ∉ exists_)
         ∧ NoDup new
         ∧ (∀ p, Open p ∈ evs → p ∉ exists_)
         ∧ (∀ p, p ∈ exists' ↔ p ∈ new ∨ p ∈ exists_).
Proof.
  intros [Hp|path Hp Hg|path st tx c Hp Hg He
          |path fp st tx c Hp Hu Hg He Ho
          |path fp st tx Hp Hu Hg He Ho
          |path fp st tx Hp Hu Hg He Ho].
  - exists []. split_and!; [done | by apply sublist_cons | set_solver
                            | constructor | set_solver | set_solver].
  - exists []. split_and!; [done | done | set_solver
                            | constructor | set_solver | set_solver].
  - exists []. split_and!; [done | done | set_solver
                            | constructor | set_solver | set_solver].
  - pose proof (unique_path_free _ _ _ _ Hu).
    exists []. split_and!; [done | done | set_solver | constructor | | set_solver].
    intros p Hin. assert (p = fp) as -> by set_solver. done.
  - pose proof (unique_path_free _ _ _ _ Hu).
    exists [fp]. split_and!; [done | done | set_solver | apply NoDup_singleton
                              | | set_solver].
    intros p Hin. assert (p = fp) as -> by set_solver. done.
  - pose proof (unique_path_free _ _ _ _ Hu).
    exists [fp]. split_and!; [done | done | set_solver | apply NoDup_singleton
                              | | set_solver].
    intros p Hin. assert (p = fp) as -> by set_solver. done.
Qed.

Lemma download_loop_cons (exists_ : gset string) (i total : nat)
    (item : candidate) (rest : list candidate) :
  loop exists_ i total (item :: rest)
  = ('(evs, exists') ← iteration exists_ i total item;
     more ← loop exists' (S i) total rest;
     Some (evs ++ more)).
Proof. reflexivity. Qed.

Lemma download_loop_files (items : list candidate) :
  ∀ (exists_ : gset string) (i total : nat) (log : list event),
    loop exists_ i total items = Some log →
    (∀ path, Open path ∈ log → path ∉ exists_)
    ∧ NoDup (created log)
    ∧ (∀ path, path ∈ created log → path ∉ exists_)
    ∧ media_requests log `sublist_of` items.*2.
Proof.
  induction items as [|[k u] items IH]; intros exists_ i total log.
  - intros [= <-]. split_and!; [set_solver | constructor | set_solver | done].
  - rewrite download_loop_cons.
    destruct (iteration exists_ i total (k, u)) as [[evs exists']|] eqn:Hone; [|done].
    cbn [mbind option_bind].
    destruct (loop exists' (S i) total items) as [more|] eqn:Hrest; [|done].
    cbn [mbind option_bind]. intros [= <-].
    destruct (IH _ _ _ _ Hrest) as (Hopen & Hnd & Hfresh & Hreq).
    destruct (created_iteration exists_ i total k u evs more exists'
                (download_one_cases _ _ _ _ _ _ _ Hone))
      as (new & Hcreated & Hsub & Hnew & Hndnew & Hopen1 & Hgrow).
    split_and!.
    + intros p [Hin|Hin]%elem_of_app; [by apply Hopen1|].
      intros Hp. apply (Hopen p Hin). apply Hgrow. by right.
    + rewrite Hcreated. apply NoDup_app. split_and!; [done | | done].
      intros p Hp Hp'. apply (Hfresh p Hp'). apply Hgrow. by left.
    + rewrite Hcreated. intros p [Hin|Hin]%elem_of_app; [by apply Hnew|].
      intros Hp. apply (Hfresh p Hin). apply Hgrow. by right.
    + etrans; [exact Hsub|]. csimpl. by apply sublist_skip.
Qed.

(** X9. The loop never overwrites: no file is opened at a path that
    existed when the loop started, the files created during the loop are
    pairwise distinct, and each item is requested at most once, in the
    order of the items. *)
Theorem download_loop_never_overwrites (items : list candidate) :
  ∀ (exists_ : gset string) (i total : nat) (log : list event),
    loop exists_ i total items = Some log →
    (∀ path, Open path ∈ log → path ∉ exists_)
    ∧ NoDup (created log)
    ∧ (∀ path, path ∈ created log → path ∉ exists_)
    ∧ media_requests log `sublist_of` items.*2.
Proof. apply download_loop_files. Qed.

Lemma download_one_is_Some (exists_ : gset string) (i total : nat)
    (item : candidate) :
  is_Some (iteration exists_ i total item).
Proof.
  destruct item as [k u]. unfold download_one.
  destruct (urlparse_path u) as [path|]; [|eauto].
  destruct (unique_path_is_Some exists_ save_folder (derive_filename k i path))
    as [filepath ->]. simpl. eauto.
Qed.

(** The trace of the loop is made of one segment per item, in order, and
    each segment is the trace of an iteration for that item. *)
Lemma download_loop_segments (items : list candidate) :
  ∀ (exists_ : gset string) (i total : nat),
    ∃ segs,
      loop exists_ i total items = Some (List.concat segs)
      ∧ List.length segs = List.length items
      ∧ ∀ j item, items !! j = Some item →
          ∃ seg files files',
            segs !! j = Some seg
            ∧ iteration_goes files (i + j) total item.1 item.2 seg files'.
Proof.
  induction items as [|[k u] items IH]; intros exists_ i total.
  - exists []. split_and!; [done | done | done].
  - rewrite download_loop_cons.
    destruct (download_one_is_Some exists_ i total (k, u)) as [[evs exists'] Hone].
    rewrite Hone. cbn [mbind option_bind].
    destruct (IH exists' (S i) total) as (segs & Hrest & Hlen & Hnth).
    rewrite Hrest. cbn [mbind option_bind].
    exists (evs :: segs). split_and!; [done | simpl; by rewrite Hlen |].
    intros [|j] item Hitem; simpl in Hitem.
    + injection Hitem as <-. exists evs, exists_, exists'.
      rewrite Nat.add_0_r. split; [done | by apply download_one_cases].
    + destruct (Hnth j item Hitem) as (seg & fs & fs' & Hseg & Hcase).
      exists seg, fs, fs'. replace (i + S j) with (S i + j) by lia. done.
Qed.

(** What the trace of one iteration says about its item. *)
Lemma iteration_case_reading (files files' : gset string) (i total : nat)
    (k : kind) (u : string) (seg : list event) :
  iteration_goes files i total k u seg files' →
  (is_Some (urlparse_path u) → head seg = Some (Get u true))
  ∧ (item_fails requests_get urlparse_path open_wb i (k, u) →
     (∃ why, last seg = Some (Emit (DownloadFailed u why)))
     ∧ ∀ k' f n t, Emit (Downloaded k' f n t) ∉ seg)
  ∧ (downloadable requests_get urlparse_path open_wb i (k, u) →
     ∃ f, last seg = Some (Emit (Downloaded k f (i + 1) total))).
Proof.
  unfold item_fails, downloadable. simpl.
  intros [Hp|path Hp Hg|path st tx c Hp Hg He
          |path fp st tx c Hp Hu Hg He Ho
          |path fp st tx Hp Hu Hg He Ho
          |path fp st tx Hp Hu Hg He Ho].
  - split_and!; [by intros [? ?]; congruence | |].
    + intros _. split; [eauto | set_solver].
    + intros ([? ?] & _); congruence.
  - split_and!; [done | |].
    + intros _. split; [eauto | set_solver].
    + intros (_ & (? & ? & ? & _) & _); congruence.
  - split_and!; [done | |].
    + intros _. split; [eauto | set_solver].
    + intros (_ & (? & ? & Hg' & He') & _). congruence.
  - split_and!; [done | |].
    + intros _. split; [eauto | set_solver].
    + intros (_ & _ & Ho'). rewrite Ho' in Ho. done.
  - split_and!; [done | |].
    + intros _. split; [eauto | set_solver].
    + intros (_ & (? & ? & Hg' & _) & _). congruence.
  - split_and!; [done | |eauto].
    intros [?|[?|(st' & tx' & c' & Hg' & [He'|[Hc|Ho']])]]; congruence.
Qed.

End Iteration.

Lemma download_one_files_witness :
  let site := λ (n : nat) (u : string), Response 404 "" true in
  ∃ evs,
    download_one site simple_urlparse_path (λ _ _, true) "d" {["d/a.png"]} 0 1
                 (Image, "https://i.pinimg.com/originals/a.png")
    = Some (evs, {["d/a.png"]})
    ∧ ∀ path, Open path ∉ evs.
Proof.
  intros site.
  destruct (download_one site simple_urlparse_path (λ _ _, true) "d" {["d/a.png"]} 0 1
              (Image, "https://i.pinimg.com/originals/a.png"))
    as [[evs fs]|] eqn:Hone; [|vm_compute in Hone; discriminate].
  destruct (download_one_files site simple_urlparse_path (λ _ _, true) "d"
              {["d/a.png"]} 0 1 (Image, "https://i.pinimg.com/originals/a.png")
              evs fs Hone) as (_ & _ & Hnone).
  destruct Hnone as [-> Hno].
  - right. right. exists 404%Z, "", true. split; reflexivity.
  - exists evs. split; [reflexivity | exact Hno].
Defined.

Lemma partial_file_is_kept_witness :
  download_one (λ _ _, Response 200 "" false) simple_urlparse_path (λ _ _, true)
               "d" ∅ 0 1 (Video, "https://v1.pinimg.com/videos/c.mp4")
  = Some ([Get "https://v1.pinimg.com/videos/c.mp4" true; Open "d/c.mp4";
           Emit (DownloadFailed "https://v1.pinimg.com/videos/c.mp4" StreamError)],
          {["d/c.mp4"]} ∪ ∅).
Proof.
  destruct (partial_file_is_kept (λ _ _, Response 200 "" false) simple_urlparse_path
              (λ _ _, true) "d" ∅ 0 1 Video "https://v1.pinimg.com/videos/c.mp4"
              "/videos/c.mp4" 200%Z "" eq_refl eq_refl eq_refl (λ _, eq_refl))
    as (filepath & Hone & Hu & _).
  vm_compute in Hu. injection Hu as <-. exact Hone.
Defined.

Lemma download_loop_never_overwrites_witness :
  let two := [(Image, "https://i.pinimg.com/originals/x.jpg");
              (Image, "https://s.pinimg.com/other/x.jpg")] in
  ∃ log,
    download_loop (λ _ _, Response 200 "" true) simple_urlparse_path (λ _ _, true)
                  "d" {["d/x.jpg"]} 0 2 two = Some log
    ∧ created log = ["d/x_1.jpg"; "d/x_2.jpg"]
    ∧ NoDup (created log).
Proof.
  intros two.
  destruct (download_loop (λ _ _, Response 200 "" true) simple_urlparse_path
              (λ _ _, true) "d" {["d/x.jpg"]} 0 2 two) as [log|] eqn:Hloop;
    [|vm_compute in Hloop; discriminate].
  exists log. split; [reflexivity|].
  pose proof (download_loop_never_overwrites (λ _ _, Response 200 "" true)
                simple_urlparse_path (λ _ _, true) "d" two _ 0 2 log Hloop)
    as (_ & Hnd & _).
  split; [|exact Hnd].
  vm_compute in Hloop. injection Hloop as <-. reflexivity.
Defined.

(** ** The run, case by case *)

Lemma for_each_None (step : node → option (list candidate))
    (elements : list node) (acc : list candidate) :
  for_each step elements acc = None → ∃ e, e ∈ elements ∧ step e = None.
Proof.
  revert acc. induction elements as [|e elements IH]; intros acc; simpl; [done|].
  destruct (step e) as [new|] eqn:He.
  - intros (e' & ? & ?)%IH. exists e'. split; [set_solver | done].
  - intros _. exists e. split; [set_solver | done].
Qed.

(** Extraction is only stopped by [urljoin]. *)
Lemma extract_None (urljoin : string → string → option string)
    (json_loads : string → option json) (base : string) (soup : node) :
  extract urljoin json_loads base soup = None → ∃ u, urljoin base u = None.
Proof.
  unfold extract.
  destruct (for_each (img_step urljoin base) _ []) as [m1|] eqn:H1; simpl.
  - destruct (for_each (video_step urljoin base) _ m1) as [m2|] eqn:H2; simpl.
    + destruct (for_each (div_step urljoin base) _ m2) as [m3|] eqn:H3; simpl; [done|].
      intros _. apply for_each_None in H3 as (e & _ & He).
      unfold div_step in He. repeat case_match; try done.
      destruct (urljoin base _) eqn:?; [done | eauto].
    + intros _. apply for_each_None in H2 as (e & _ & He).
      unfold video_step in He. repeat case_match; try done.
      destruct (urljoin base _) eqn:?; [done | eauto].
  - intros _. apply for_each_None in H1 as (e & _ & He).
    unfold img_step in He. repeat case_match; try done.
    destruct (urljoin base _) eqn:?; [done | eauto].
Qed.

Section RunCases.
Variable requests_get : nat → string → response.
Variable html_parser : string → option node.
Variable json_loads : string → option json.
Variable urljoin : string → string → option string.
Variable urlparse_path : string → option string.
Variable open_wb : nat → string → bool.
Variable url save_folder : string.

Local Abbreviation loop :=
  (download_loop requests_get urlparse_path open_wb save_folder).
Local Abbreviation run_goes :=
  (run_case requests_get html_parser json_loads urljoin urlparse_path open_wb
            url save_folder).

Lemma run_cases (exists_ : gset string) :
  ∃ log,
    run requests_get html_parser json_loads urljoin urlparse_path open_wb url
        save_folder exists_ = Some log
    ∧ run_goes exists_ log.
Proof.
  unfold run.
  destruct (requests_get 0 url) as [|status text complete] eqn:Hpage.
  - eexists. split; [done|]. by apply run_request_raised.
  - destruct (decide (status = 200%Z)) as [->|Hst].
    + simpl. destruct (html_parser text) as [soup|] eqn:Hparse.
      * destruct (extract urljoin json_loads url soup)
          as [media_elements|] eqn:Hex.
        -- destruct (media_list media_elements) as [|item items] eqn:Hitems.
           ++ apply media_list_nil in Hitems as ->.
              eexists. split; [done|]. by eapply run_no_media.
           ++ destruct (download_loop_outcomes requests_get html_parser json_loads
                          urljoin urlparse_path open_wb save_folder
                          (item :: items) exists_ 0
                          (List.length (item :: items)))
                as (loop_log & Hloop & _).
              rewrite Hloop. eexists. split; [done|].
              rewrite <- Hitems in *.
              eapply run_downloads; [done | done | done | | done].
              intros ->. done.
        -- eexists. split; [done|]. by eapply run_extract_raised.
      * eexists. split; [done|]. by eapply run_parser_raised.
    + rewrite (proj2 (Z.eqb_neq status 200) Hst). simpl.
      eexists. split; [done|]. by eapply run_bad_status.
Qed.

(** The lines of the loop are success and failure lines of its items. *)
Lemma loop_lines (items : list candidate) (exists_ : gset string)
    (i total : nat) (loop_log : list event) (m : message) :
  loop exists_ i total items = Some loop_log →
  m ∈ emitted loop_log →
  ∃ j item, items !! j = Some item ∧ outcome_for item (i + j) total m.
Proof.
  intros Hloop Hm.
  destruct (download_loop_outcomes requests_get html_parser json_loads urljoin
              urlparse_path open_wb
              save_folder items exists_ i total)
    as (log & Hlog & Hlen & Hnth & _).
  rewrite Hloop in Hlog. injection Hlog as <-.
  apply list_elem_of_lookup in Hm as [j Hj].
  assert (j < List.length items) as Hlt.
  { rewrite <- Hlen. by eapply lookup_lt_Some. }
  destruct (lookup_lt_is_Some_2 items j Hlt) as [item Hitem].
  destruct (Hnth j item Hitem) as (m' & Hm' & Hout & _).
  rewrite Hj in Hm'. injection Hm' as <-. eauto.
Qed.

Lemma loop_gets_stream (items : list candidate) (exists_ : gset string)
    (i total : nat) (loop_log : list event) (u : string) :
  loop exists_ i total items = Some loop_log → Get u false ∉ loop_log.
Proof.
  intros Hloop Hin.
  destruct (download_loop_outcomes requests_get html_parser json_loads urljoin
              urlparse_path open_wb
              save_folder items exists_ i total)
    as (log & Hlog & _ & _ & Hgets).
  rewrite Hloop in Hlog. injection Hlog as <-.
  by destruct (Hgets u false Hin) as [? _].
Qed.

Lemma emit_emitted (log : list event) (m : message) :
  Emit m ∈ log ↔ m ∈ emitted log.
Proof.
  unfold emitted. rewrite list_elem_of_omap. split.
  - intros Hin. by exists (Emit m).
  - intros (e & Hin & He). destruct e; simplify_eq. done.
Qed.

(** X10. Every run ends.  Its trace starts with the access line and the
    one request for the page (there is no retry) and ends with exactly
    one closing line: page failed, no media found, all downloads
    completed, or critical error. *)
Theorem run_ends_with_one_closing_line (exists_ : gset string) :
  ∃ log body m,
    run requests_get html_parser json_loads urljoin urlparse_path open_wb url
        save_folder exists_ = Some log
    ∧ log = [Emit (Accessing url); Get url false] ++ body ++ [Emit m]
    ∧ closing m
    ∧ (∀ u, Get u false ∉ body)
    ∧ (∀ m', Emit m' ∈ body → ¬ closing m').
Proof.
  destruct (run_cases exists_) as (log & Hrun & Hcase).
  destruct Hcase as [Hp|st tx c Hp Hst|tx c Hp Hpa|tx c soup Hp Hpa Hex
                     |tx c soup Hp Hpa Hex
                     |tx c soup cands loop_log Hp Hpa Hex Hne Hloop].
  1-5: eexists _, [], _; split_and!;
    [exact Hrun | reflexivity | unfold closing; eauto | set_solver | set_solver].
  eexists _, (_ :: loop_log), AllCompleted.
  split_and!; [exact Hrun | reflexivity | | |].
  - unfold closing; eauto.
  - intros u [Hin|Hin]%elem_of_cons; [done|].
    by eapply loop_gets_stream.
  - intros m' [Heq|Hin]%elem_of_cons.
    + injection Heq as ->. unfold closing. naive_solver.
    + apply emit_emitted in Hin.
      destruct (loop_lines _ _ _ _ _ _ Hloop Hin) as (j & item & _ & Hout).
      unfold closing, outcome_for in *. naive_solver.
Qed.

(** X11. The critical-error line is emitted exactly when the request for
    the page raises, the HTML parser raises, or URL resolution raises
    during extraction; failures of single items never produce it.  The
    trace is then the access line, the page request and that line, and
    extraction itself can only be stopped by [urljoin]. *)
Theorem critical_error_iff (exists_ : gset string) (log : list event) :
  run requests_get html_parser json_loads urljoin urlparse_path open_wb url
      save_folder exists_ = Some log →
  (Emit CriticalError ∈ log
   ↔ requests_get 0 url = Raised
     ∨ ∃ text complete,
         requests_get 0 url = Response 200 text complete
         ∧ (html_parser text = None
            ∨ ∃ soup, html_parser text = Some soup
                      ∧ extract urljoin json_loads url soup = None))
  ∧ (Emit CriticalError ∈ log →
     log = [Emit (Accessing url); Get url false; Emit CriticalError])
  ∧ (∀ soup, extract urljoin json_loads url soup = None →
             ∃ u, urljoin url u = None).
Proof.
  intros Hrun. destruct (run_cases exists_) as (log' & Hrun' & Hcase).
  rewrite Hrun in Hrun'. injection Hrun' as <-.
  assert (∀ loop_log items,
            loop exists_ 0 (List.length items) items = Some loop_log →
            Emit CriticalError ∉ loop_log) as Hitems.
  { intros loop_log items Hloop Hin. apply emit_emitted in Hin.
    destruct (loop_lines _ _ _ _ _ _ Hloop Hin) as (j & item & _ & Hout).
    unfold outcome_for in Hout. naive_solver. }
  split_and!; [| |intros soup; apply extract_None].
  - destruct Hcase as [Hp|st tx c Hp Hst|tx c Hp Hpa|tx c soup Hp Hpa Hex
                       |tx c soup Hp Hpa Hex
                       |tx c soup cands loop_log Hp Hpa Hex Hne Hloop].
    + split; [by left | set_solver].
    + split; [set_solver|]. intros [?|(? & ? & ? & _)]; congruence.
    + split; [right; eauto 6 | set_solver].
    + split; [right; eauto 8 | set_solver].
    + split; [set_solver|].
      intros [?|(? & ? & ? & [?|(? & ? & ?)])]; congruence.
    + split.
      * intros Hin. exfalso. apply (Hitems _ _ Hloop). set_solver.
      * intros [?|(? & ? & ? & [?|(? & ? & ?)])]; congruence.
  - destruct Hcase as [Hp|st tx c Hp Hst|tx c Hp Hpa|tx c soup Hp Hpa Hex
                       |tx c soup Hp Hpa Hex
                       |tx c soup cands loop_log Hp Hpa Hex Hne Hloop];
      [done | set_solver | done | done | set_solver |].
    intros Hin. exfalso. apply (Hitems _ _ Hloop). set_solver.
Qed.

(** X12. The numbers in the lines are consistent: in the summary line the
    image and video counts add up to the positive total, and every
    success line carries a position between 1 and that total. *)
Theorem progress_numbers (exists_ : gset string) (log : list event) :
  run requests_get html_parser json_loads urljoin urlparse_path open_wb url
      save_folder exists_ = Some log →
  (∀ total images videos, Emit (Found total images videos) ∈ log →
     images + videos = total ∧ 1 ≤ total)
  ∧ (∀ k f n total, Emit (Downloaded k f n total) ∈ log →
       1 ≤ n ≤ total ∧ ∃ images videos, Emit (Found total images videos) ∈ log).
Proof.
  intros Hrun. destruct (run_cases exists_) as (log' & Hrun' & Hcase).
  rewrite Hrun in Hrun'. injection Hrun' as <-.
  destruct Hcase as [Hp|st tx c Hp Hst|tx c Hp Hpa|tx c soup Hp Hpa Hex
                     |tx c soup Hp Hpa Hex
                     |tx c soup cands loop_log Hp Hpa Hex Hne Hloop].
  1-5: split; intros; set_solver.
  assert (Hpos : 1 ≤ List.length (media_list cands)).
  { destruct (media_list cands) eqn:Hml; [|simpl; lia].
    exfalso. by apply Hne, media_list_nil. }
  split.
  - intros total images videos Hin.
    assert (Emit (Found total images videos)
            = Emit (Found (List.length (media_list cands))
                          (count_kind Image (media_list cands))
                          (count_kind Video (media_list cands)))
            ∨ Emit (Found total images videos) ∈ loop_log) as [[= -> -> ->]|Hin']
      by set_solver.
    + split; [apply count_kind_total | done].
    + apply emit_emitted in Hin'.
      destruct (loop_lines _ _ _ _ _ _ Hloop Hin') as (j & item & _ & Hout).
      unfold outcome_for in Hout. naive_solver.
  - intros k f n total Hin.
    assert (Emit (Downloaded k f n total) ∈ loop_log) as Hin' by set_solver.
    apply emit_emitted in Hin'.
    destruct (loop_lines _ _ _ _ _ _ Hloop Hin') as (j & item & Hj & Hout).
    apply lookup_lt_Some in Hj.
    destruct Hout as [(f' & [= _ _ -> ->])|(? & [=])].
    split; [lia|].
    exists (count_kind Image (media_list cands)), (count_kind Video (media_list cands)).
    set_solver.
Qed.


(** C2. A failure while downloading one item is caught and logged, and
    the loop goes on.  The loop always ends, and its trace is one segment
    per item, in order.  The segment of an item is the trace of one
    iteration for it: the item is attempted (its URL is requested as soon
    as it parses); when it fails, for whichever cause (URL, request,
    status, file, body), the segment ends with the failure line for its
    URL and holds no success line; when it can be fetched and written,
    the segment ends with its success line, whatever happened to the
    items before it.  After the loop the completion line is emitted in
    every case, also when every item failed. *)
Theorem failures_are_isolated (exists_ : gset string) :
  (∀ i total items,
      ∃ segs,
        loop exists_ i total items = Some (List.concat segs)
        ∧ List.length segs = List.length items
        ∧ List.length (emitted (List.concat segs)) = List.length items
        ∧ ∀ j item, items !! j = Some item →
            ∃ seg files files',
              segs !! j = Some seg
              ∧ iteration_case requests_get urlparse_path open_wb save_folder
                               files (i + j) total item.1 item.2 seg files'
              ∧ (is_Some (urlparse_path item.2) →
                 head seg = Some (Get item.2 true))
              ∧ (item_fails requests_get urlparse_path open_wb (i + j) item →
                 (∃ why, last seg = Some (Emit (DownloadFailed item.2 why)))
                 ∧ ∀ k f n t, Emit (Downloaded k f n t) ∉ seg)
              ∧ (downloadable requests_get urlparse_path open_wb (i + j) item →
                 ∃ f, last seg
                      = Some (Emit (Downloaded item.1 f (i + j + 1) total))))
  ∧ (∀ text complete soup media_elements,
        requests_get 0 url = Response 200 text complete →
        html_parser text = Some soup →
        extract urljoin json_loads url soup = Some media_elements →
        media_elements ≠ [] →
        let items := media_list media_elements in
        ∃ log loop_log,
          run requests_get html_parser json_loads urljoin urlparse_path
              open_wb url save_folder exists_ = Some log
          ∧ loop exists_ 0 (List.length items) items = Some loop_log
          ∧ log = [Emit (Accessing url); Get url false;
                   Emit (Found (List.length items) (count_kind Image items)
                               (count_kind Video items))]
                    ++ loop_log ++ [Emit AllCompleted]
          ∧ last log = Some (Emit AllCompleted)).
Proof.
  split.
  - intros i total items.
    destruct (download_loop_segments requests_get urlparse_path open_wb
                save_folder items exists_ i total) as (segs & Hrun & Hlen & Hnth).
    exists segs. split_and!; [done | done | |].
    + destruct (download_loop_outcomes requests_get html_parser json_loads urljoin
                  urlparse_path open_wb save_folder items exists_ i total)
        as (log & Hlog & Hemitted & _).
      rewrite Hrun in Hlog. by injection Hlog as <-.
    + intros j [k u] Hitem.
      destruct (Hnth j (k, u) Hitem) as (seg & files & files' & Hseg & Hcase).
      exists seg, files, files'. split; [done|]. split; [done|].
      by apply (iteration_case_reading requests_get urlparse_path open_wb
                  save_folder files files').
  - intros text complete soup media_elements Hpage Hparse Hextract Hne items.
    destruct (download_loop_outcomes requests_get html_parser json_loads urljoin
                urlparse_path open_wb save_folder items exists_ 0
                (List.length items)) as (loop_log & Hloop & _).
    unfold run. rewrite Hpage. simpl. rewrite Hparse, Hextract.
    fold items. destruct items as [|item items'] eqn:Hitems.
    { exfalso. by apply Hne, media_list_nil. }
    rewrite Hloop. simpl.
    eexists _, loop_log. split_and!; [done | done | done |].
    by rewrite !app_comm_cons, last_snoc.
Qed.

End RunCases.

Lemma failures_are_isolated_witness :
  pin_run {["Pinterest_downloads/b.jpg"]} = Some pin_log
  ∧ last pin_log = Some (Emit AllCompleted).
Proof.
  destruct (proj2 (failures_are_isolated pin_site (λ _, Some pin_page) (loads_table [])
                     urljoin_absolute simple_urlparse_path (λ _ _, true) pin_url
                     "Pinterest_downloads" {["Pinterest_downloads/b.jpg"]})
                  "" true pin_page
                  [(Image, "https://i.pinimg.com/originals/a.png");
                   (Image, "https://i.pinimg.com/originals/b.jpg?x=1");
                   (Video, "https://v1.pinimg.com/videos/c.mp4")])
    as (log & loop_log & Hrun & Hloop & Hlog & Hlast).
  - reflexivity.
  - reflexivity.
  - vm_compute. reflexivity.
  - discriminate.
  - assert (pin_run {["Pinterest_downloads/b.jpg"]} = Some pin_log) as Hpin
      by (vm_compute; reflexivity).
    split; [exact Hpin|].
    unfold pin_run in Hpin. rewrite Hrun in Hpin. injection Hpin as <-.
    exact Hlast.
Defined.

Lemma critical_error_iff_witness :
  let rejected := "<![foo]>" in
  run (λ _ _, Response 200 rejected true) (λ _, None) (loads_table [])
      urljoin_absolute simple_urlparse_path (λ _ _, true) pin_url
      "Pinterest_downloads" ∅
  = Some [Emit (Accessing pin_url); Get pin_url false; Emit CriticalError].
Proof.
  intros rejected.
  destruct (run (λ _ _, Response 200 rejected true) (λ _, None) (loads_table [])
              urljoin_absolute simple_urlparse_path (λ _ _, true) pin_url
              "Pinterest_downloads" ∅) as [log|] eqn:Hrun;
    [|vm_compute in Hrun; discriminate].
  destruct (critical_error_iff _ _ _ _ _ _ _ _ _ _ Hrun) as (Hiff & Hlog & _).
  f_equal. apply Hlog, Hiff. right. exists rejected, true. split; [done | by left].
Defined.

Lemma progress_numbers_witness :
  (∀ total images videos, Emit (Found total images videos) ∈ pin_log →
     images + videos = total ∧ 1 ≤ total)
  ∧ (∀ k f n total, Emit (Downloaded k f n total) ∈ pin_log →
       1 ≤ n ≤ total ∧ ∃ images videos, Emit (Found total images videos) ∈ pin_log).
Proof.
  apply (progress_numbers pin_site (λ _, Some pin_page) (loads_table [])
           urljoin_absolute simple_urlparse_path (λ _ _, true) pin_url
           "Pinterest_downloads" {["Pinterest_downloads/b.jpg"]}).
  vm_compute. reflexivity.
Defined.


(** ** File names and paths *)

Lemma has_char_app (c : ascii) (s t : string) :
  Py.has_char c (s +:+ t) = Py.has_char c s || Py.has_char c t.
Proof.
  induction s as [|a s IH]; [done|].
  rewrite string_app_cons. simpl. by rewrite IH, orb_assoc.
Qed.

Lemma has_char_take (c : ascii) (n : nat) (s : string) :
  Py.has_char c s = false → Py.has_char c (Py.take n s) = false.
Proof.
  revert n. induction s as [|a s IH]; intros [|n]; simpl; try done.
  intros [-> Hs]%orb_false_iff. simpl. by apply IH.
Qed.

Lemma has_char_drop (c : ascii) (n : nat) (s : string) :
  Py.has_char c s = false → Py.has_char c (Py.drop n s) = false.
Proof.
  revert n. induction s as [|a s IH]; intros [|n]; simpl; try done.
  intros [_ Hs]%orb_false_iff. by apply IH.
Qed.

Lemma take_drop (n : nat) (s : string) : Py.take n s +:+ Py.drop n s = s.
Proof.
  revert n. induction s as [|a s IH]; intros [|n]; simpl; try done.
  by rewrite string_app_cons, IH.
Qed.

(** [os.path.splitext] cuts its argument in two. *)
Lemma splitext_app (p : string) : (Path.splitext p).1 +:+ (Path.splitext p).2 = p.
Proof.
  unfold Path.splitext.
  destruct (Py.rfind Path.extsep p) as [dot|]; simpl.
  - destruct (_ && _); simpl; [apply take_drop|].
    clear. induction p as [|a p IH]; [done|]. by rewrite string_app_cons, IH.
  - clear. induction p as [|a p IH]; [done|]. by rewrite string_app_cons, IH.
Qed.

Lemma splitext_no_char (c : ascii) (p : string) :
  Py.has_char c p = false →
  Py.has_char c (Path.splitext p).1 = false
  ∧ Py.has_char c (Path.splitext p).2 = false.
Proof.
  intros Hp. unfold Path.splitext.
  destruct (Py.rfind Path.extsep p) as [dot|]; simpl; [|done].
  destruct (_ && _); simpl; [|done].
  split; [by apply has_char_take | by apply has_char_drop].
Qed.

Lemma split_pieces_no_sep (c : ascii) (s piece : string) :
  piece ∈ Py.split c s → Py.has_char c piece = false.
Proof.
  revert piece. induction s as [|a s IH]; intros piece; simpl.
  - by intros ->%list_elem_of_singleton.
  - case_bool_decide as Ha.
    + intros [->|Hin]%elem_of_cons; [done | by apply IH].
    + destruct (Py.split c s) as [|x rest].
      * by intros ->%list_elem_of_singleton; simpl; rewrite bool_decide_eq_false_2.
      * intros [->|Hin]%elem_of_cons.
        -- simpl. rewrite bool_decide_eq_false_2 by done. apply IH. set_solver.
        -- apply IH. set_solver.
Qed.

Lemma basename_no_sep (p : string) : Py.has_char "/"%char (Path.basename p) = false.
Proof.
  rewrite basename_final_segment. unfold final_segment.
  destruct (last (Py.split Path.sep p)) as [piece|] eqn:Hlast; [|done].
  apply (split_pieces_no_sep Path.sep p). simpl.
  apply last_Some in Hlast as [l ->]. set_solver.
Qed.

Lemma str_no_slash (n : nat) : Py.has_char "/"%char (Py.str n) = false.
Proof.
  assert (∀ x s, Py.has_char "/"%char s = false →
                 Py.has_char "/"%char (pretty_N_go x s) = false) as Hgo.
  { intros x. induction (N.lt_wf_0 x) as [x _ IH]; intros s Hs.
    assert (x = 0 ∨ 0 < x)%N as [->|?] by lia; [by rewrite pretty_N_go_0|].
    rewrite pretty_N_go_step by done. apply IH; [by apply N.div_lt|].
    simpl. rewrite Hs. unfold pretty_N_char. by repeat case_match. }
  unfold Py.str, pretty, pretty_nat, pretty, pretty_N.
  case_decide; [done | by apply Hgo].
Qed.

Lemma derive_filename_slash_free (k : kind) (i : nat) (path : string) :
  Py.has_char "/"%char (derive_filename k i path) = false.
Proof.
  unfold derive_filename.
  pose proof (basename_no_sep path) as Hb.
  destruct (splitext_no_char "/"%char _ Hb) as [Hroot _].
  destruct (_ || _).
  - rewrite !has_char_app, str_no_slash. by destruct k.
  - destruct k; simpl.
    + destruct (negb _); [|done]. by rewrite has_char_app, Hroot.
    + destruct (negb _); [|done]. by rewrite has_char_app, Hroot.
Qed.

(** X14. A derived file name never contains a slash, whatever the URL
    path is. *)
Theorem derive_filename_no_slash (k : kind) (i : nat) (path : string) :
  Py.has_char "/"%char (derive_filename k i path) = false.
Proof. apply derive_filename_slash_free. Qed.

(** X15. A derived file name always ends, up to case, with an extension
    accepted for the kind of the item. *)
Theorem derive_filename_extension (k : kind) (i : nat) (path : string) :
  ∃ root ext,
    derive_filename k i path = root +:+ ext
    ∧ Py.lower ext ∈ accepted_exts k.
Proof.
  unfold derive_filename.
  set (filename := Path.basename path).
  destruct (_ || _).
  - exists (media_type k +:+ "_" +:+ Py.str (i + 1)), (default_ext k).
    split.
    + rewrite !string_app_assoc. by destruct k.
    + destruct k; vm_compute; set_solver.
  - destruct k.
    + rewrite (bool_decide_eq_false_2 (Image = Video)) by done.
      rewrite (bool_decide_eq_true_2 (Image = Image)) by done.
      rewrite andb_false_l, andb_true_l.
      destruct (in_list _ _) eqn:Hin; cbn [negb].
      * exists (Path.splitext filename).1, (Path.splitext filename).2.
        split; [by rewrite splitext_app | by apply in_list_elem_of].
      * exists (Path.splitext filename).1, ".jpg". split; [done | set_solver].
    + rewrite (bool_decide_eq_true_2 (Video = Video)) by done.
      rewrite andb_true_l.
      destruct (in_list _ _) eqn:Hin; cbn [negb].
      * rewrite (bool_decide_eq_false_2 (Video = Image)) by done.
        rewrite andb_false_l.
        exists (Path.splitext filename).1, (Path.splitext filename).2.
        split; [by rewrite splitext_app | by apply in_list_elem_of].
      * exists (Path.splitext filename).1, ".mp4". split; [done | set_solver].
Qed.










(** ** The window *)

Lemma endswith_spec (suffix s : string) :
  endswith suffix s = true ↔ ∃ pre, s = pre +:+ suffix.
Proof.
  induction s as [|a s IH]; simpl.
  - rewrite orb_false_r, bool_decide_eq_true. split.
    + intros <-. by exists "".
    + intros [pre Heq]. destruct pre; [done|]. by rewrite string_app_cons in Heq.
  - rewrite orb_true_iff, bool_decide_eq_true, IH. split.
    + intros [<-|[pre ->]]; [by exists "" | by exists (String a pre)].
    + intros [pre Heq]. destruct pre as [|b pre]; [by left|].
      rewrite string_app_cons in Heq. injection Heq as -> ->. eauto.
Qed.

(** X18. A URL passes the check exactly when the host part ends with
    [pinterest.com] (any host with that ending, not only the site and its
    subdomains) and [/pin/] occurs somewhere in the URL or in its path. *)
Theorem is_valid_pinterest_url_iff (urlparse : string → option (string * string))
    (url netloc path : string) :
  urlparse url = Some (netloc, path) →
  is_valid_pinterest_url urlparse url = Some true
  ↔ (∃ pre, netloc = pre +:+ "pinterest.com")
    ∧ ((∃ pre post, url = pre +:+ "/pin/" +:+ post)
       ∨ (∃ pre post, path = pre +:+ "/pin/" +:+ post)).
Proof.
  intros Hparse. unfold is_valid_pinterest_url. rewrite Hparse. simpl.
  rewrite <- endswith_spec, <- !contains_spec. split.
  - intros [= [? [?|?]%orb_true_iff]%andb_true_iff]; eauto.
  - intros [-> [->| ->]]; by rewrite ?orb_true_r.
Qed.

Lemma is_valid_pinterest_url_iff_witness :
  let urlparse := λ _ : string, Some ("notpinterest.com", "/pin/1/") in
  is_valid_pinterest_url urlparse "https://notpinterest.com/pin/1/" = Some true.
Proof.
  intros urlparse.
  apply (is_valid_pinterest_url_iff urlparse "https://notpinterest.com/pin/1/"
           "notpinterest.com" "/pin/1/" eq_refl).
  split; [by exists "not" | left; by exists "https://notpinterest.com", "1/"].
Defined.



Lemma fold_update_log (ms : list message) (w : window) :
  fold_left update_log ms w
  = {| download_btn_enabled := download_btn_enabled w;
       log_output := log_output w ++ ms;
       dialogs := dialogs w;
       download_folder := download_folder w |}.
Proof.
  revert w. induction ms as [|m ms IH]; intros w; simpl.
  - rewrite app_nil_r. by destruct w.
  - rewrite IH. simpl. by rewrite <- app_assoc.
Qed.

(** X20. Once the button has started a thread, the session always comes
    to an end, and it ends the same way whatever the run did: the log
    view has received the lines of the run in order, the button is
    enabled again, and the success box is shown, also when the run only
    reported a failure. *)
Theorem session_ends_with_success_box (strip : string → string)
    (urlparse : string → option (string * string))
    (requests_get : nat → string → response) (html_parser : string → option node)
    (json_loads : string → option json) (urljoin : string → string → option string)
    (urlparse_path : string → option string) (open_wb : nat → string → bool)
    (text : string) (exists_ : gset string) (w w1 : window)
    (url save_folder : string) :
  start_download strip urlparse text w = Some (w1, Some (url, save_folder)) →
  ∃ log,
    run requests_get html_parser json_loads urljoin urlparse_path open_wb url
        save_folder exists_ = Some log
    ∧ download_session strip urlparse requests_get html_parser json_loads urljoin
                       urlparse_path open_wb text exists_ w
      = Some {| download_btn_enabled := true;
                log_output := log_output w ++ emitted log;
                dialogs := dialogs w
                             ++ [("Success", "All media downloaded successfully!")];
                download_folder := download_folder w |}.
Proof.
  intros Hstart.
  destruct (run_cases requests_get html_parser json_loads urljoin urlparse_path
              open_wb url save_folder exists_) as (log & Hrun & _).
  exists log. split; [done|].
  unfold download_session. rewrite Hstart. simpl. rewrite Hrun. simpl.
  rewrite fold_update_log. unfold start_download in Hstart.
  destruct (bool_decide (strip text = "")); [done|].
  destruct (is_valid_pinterest_url urlparse (strip text)) as [[]|];
    simpl in Hstart; [|done..].
  by injection Hstart as <- <- <-.
Qed.

Lemma session_ends_with_success_box_witness :
  let urlparse := λ _ : string, Some ("www.pinterest.com", "/pin/123/") in
  let w := Window true [] [] "Pinterest_downloads" in
  download_session strip_sample urlparse (λ _ _, Response 403 "Forbidden" true)
                   (λ _, Some pin_page)
                   (loads_table []) urljoin_absolute simple_urlparse_path
                   (λ _ _, true) pin_url ∅ w
  = Some {| download_btn_enabled := true;
            log_output := [Accessing pin_url; PageFailed];
            dialogs := [("Success", "All media downloaded successfully!")];
            download_folder := "Pinterest_downloads" |}.
Proof.
  intros urlparse w.
  destruct (session_ends_with_success_box strip_sample urlparse
              (λ _ _, Response 403 "Forbidden" true) (λ _, Some pin_page)
              (loads_table []) urljoin_absolute simple_urlparse_path
              (λ _ _, true) pin_url ∅ w (set_enabled false w) pin_url
              "Pinterest_downloads" eq_refl) as (log & Hrun & Hsession).
  vm_compute in Hrun. injection Hrun as <-. exact Hsession.
Defined.
